(** * go-idempotency: the idempotency middleware and its two stores

    A shallow embedding of the Go package [idempotency] (the middleware, its
    configuration and its errors) and of the package [store] (the in-memory
    and the Redis store), followed by the properties of the middleware and of
    the stores that are proved about them.

    Conventions.
    - A Go [string] and a Go [[]byte] are both sequences of 8-bit characters;
      both are Rocq [string]s.  [+:+] is concatenation.
    - [int] status codes, [time.Time] instants and [time.Duration]s are [Z]
      (instants and durations in nanoseconds).
    - A Go [map] is a [gmap]; [http.Header] is [gmap string (list string)].
    - Code that mutates what it is given (the response writer, the store, the
      request body) takes the old value and returns the new one.
    - A call that can panic returns, with its result, how it ended
      ([http.Outcome]).  [Middleware] is the middleware for calls that
      return; [Middleware_panicking] is the same code with the panics of
      the wrapped handler and of the response writer.
    - The parts of the Go standard library that the package calls
      ([net/textproto], [net/http], [crypto/sha256]) are written out after
      their documentation, in modules named after them; the Redis client and
      the mutexes of the in-memory store are modelled where they are used. *)

From stdpp Require Import gmap strings list fin_maps.
From Stdlib Require Import ZArith NArith Ascii.

(** ** Bytes *)

Definition isLower (c : ascii) : bool :=
  ((97 <=? N_of_ascii c) && (N_of_ascii c <=? 122))%N.

Definition isUpper (c : ascii) : bool :=
  ((65 <=? N_of_ascii c) && (N_of_ascii c <=? 90))%N.

Definition isDigit (c : ascii) : bool :=
  ((48 <=? N_of_ascii c) && (N_of_ascii c <=? 57))%N.

(** ['a' - 'A'] *)
Definition toLower : N := 32.

Definition hex_digit (n : N) : ascii :=
  if (n <? 10)%N then ascii_of_N (48 + n) else ascii_of_N (87 + n).

(** [fmt.Sprintf("%x", b)]: two lower-case hexadecimal digits per byte. *)
Fixpoint hex (b : string) : string :=
  match b with
  | EmptyString => EmptyString
  | String c b' =>
      String (hex_digit (N.shiftr (N_of_ascii c) 4))
        (String (hex_digit (N.land (N_of_ascii c) 15)) (hex b'))
  end.

(** ** Errors

    A Go [error] value.  [ErrRequestInProgress], [ErrNotFound] and
    [ErrLockFailed] are the sentinels of [errors.go]; every other error is
    told apart by its message.  Comparing errors with [==] is comparing
    these values. *)

Inductive error : Type :=
| ErrRequestInProgress
| ErrNotFound
| ErrLockFailed
| errorString (msg : string).

#[global] Instance error_eq_dec : EqDecision error.
Proof. solve_decision. Defined.

(** ** crypto/sha256 (FIPS 180-4) *)

Module sha256.
Local Open Scope N_scope.

Definition w32 (x : N) : N := N.land x 0xffffffff.
Definition add32 (x y : N) : N := w32 (x + y).
Definition rotr (n x : N) : N :=
  N.lor (N.shiftr x n) (w32 (N.shiftl x (32 - n))).
Definition Ch (x y z : N) : N :=
  N.lxor (N.land x y) (N.land (N.lxor x 0xffffffff) z).
Definition Maj (x y z : N) : N :=
  N.lxor (N.lxor (N.land x y) (N.land x z)) (N.land y z).
Definition bsig0 (x : N) : N := N.lxor (N.lxor (rotr 2 x) (rotr 13 x)) (rotr 22 x).
Definition bsig1 (x : N) : N := N.lxor (N.lxor (rotr 6 x) (rotr 11 x)) (rotr 25 x).
Definition ssig0 (x : N) : N := N.lxor (N.lxor (rotr 7 x) (rotr 18 x)) (N.shiftr x 3).
Definition ssig1 (x : N) : N := N.lxor (N.lxor (rotr 17 x) (rotr 19 x)) (N.shiftr x 10).

(** The constants are what FIPS 180-4 says they are: the first 32 bits of
    the fractional parts of the cube roots of the first 64 primes, and of
    the square roots of the first 8. *)
Definition is_prime (p : N) : bool :=
  forallb (fun d => negb (p mod N.of_nat d =? 0)) (seq 2 (N.to_nat p - 2)).

Definition primes : list N :=
  List.filter is_prime (map N.of_nat (seq 2 310)).

(** the integer cube root, one bit at a time *)
Definition cbrt (x : N) : N :=
  foldl (fun r b => let r' := r + 2 ^ N.of_nat b in
                    if r' * r' * r' <=? x then r' else r)
        0 (rev (seq 0 40)).

Definition K : list N :=
  Eval vm_compute in map (fun p => w32 (cbrt (p * 2 ^ 96))) (take 64 primes).

Definition init : list N :=
  Eval vm_compute in map (fun p => w32 (N.sqrt (p * 2 ^ 64))) (take 8 primes).

(** [x] on [n] bytes, most significant first *)
Fixpoint be_bytes (n : nat) (x : N) : list N :=
  match n with
  | O => []
  | S n' => N.land (N.shiftr x (8 * N.of_nat n')) 0xff :: be_bytes n' x
  end.

Definition be_word (bs : list N) : N := foldl (fun acc b => acc * 256 + b) 0 bs.

Definition pad (msg : list N) : list N :=
  let len := N.of_nat (length msg) in
  msg ++ [0x80] ++ replicate (N.to_nat ((119 - len mod 64) mod 64)) 0
      ++ be_bytes 8 (8 * len).

Fixpoint chunks (fuel n : nat) (l : list N) : list (list N) :=
  match fuel, l with
  | _, [] => []
  | O, _ => []
  | S fuel', _ => take n l :: chunks fuel' n (drop n l)
  end.

(** the message schedule, most recent word first *)
Fixpoint schedule (n : nat) (w : list N) : list N :=
  match n with
  | O => w
  | S n' =>
      schedule n'
        (add32 (add32 (ssig1 (nth 1 w 0)) (nth 6 w 0))
               (add32 (ssig0 (nth 14 w 0)) (nth 15 w 0)) :: w)
  end.

Definition round (st : list N) (kw : N * N) : list N :=
  match st with
  | [a; b; c; d; e; f; g; h] =>
      let t1 := add32 (add32 (add32 h (bsig1 e)) (add32 (Ch e f g) (fst kw))) (snd kw) in
      let t2 := add32 (bsig0 a) (Maj a b c) in
      [add32 t1 t2; a; b; c; add32 d t1; e; f; g]
  | _ => st
  end.

Definition block (st : list N) (p : list N) : list N :=
  let w := rev (schedule 48 (rev (map be_word (chunks 16 4 p)))) in
  zip_with add32 st (foldl round st (zip K w)).

Definition digest (msg : list N) : list N :=
  let p := pad msg in
  concat (map (be_bytes 4) (foldl block init (chunks (length p) 64 p))).

(** A [hash.Hash] is the bytes written to it so far. *)
Definition New : string := EmptyString.
Definition Write (b : string) (h : string) : string := h +:+ b.
(** [h.Sum(nil)] *)
Definition Sum (h : string) : string :=
  String.string_of_list_ascii
    (map ascii_of_N (digest (map N_of_ascii (String.list_ascii_of_string h)))).
End sha256.

(** ** net/textproto *)

Module textproto.

(** the [token] characters of RFC 7230 *)
Definition validHeaderFieldByte (c : ascii) : bool :=
  isDigit c || isUpper c || isLower c
  || existsb (Ascii.eqb c)
       ["!"; "#"; "$"; "%"; "&"; "'"; "*"; "+"; "-"; "."; "^"; "_"; "`"; "|"; "~"]%char.

(** the rewriting loop of [canonicalMIMEHeaderKey]: upper case for the first
    letter and after each dash, lower case elsewhere *)
Fixpoint canonicalize (upper : bool) (a : string) : string :=
  match a with
  | EmptyString => EmptyString
  | String c a' =>
      let c' :=
        if upper && isLower c then ascii_of_N (N_of_ascii c - toLower)
        else if negb upper && isUpper c then ascii_of_N (N_of_ascii c + toLower)
        else c in
      String c' (canonicalize (Ascii.eqb c' "-") a')
  end.

(** its first loop: [None] when a byte is neither a token character nor a
    space, else whether a space was seen *)
Fixpoint looksLikeHeaderKey (noCanon : bool) (a : string) : option bool :=
  match a with
  | EmptyString => Some noCanon
  | String c a' =>
      if validHeaderFieldByte c then looksLikeHeaderKey noCanon a'
      else if Ascii.eqb c " " then looksLikeHeaderKey true a'
      else None
  end.

Definition canonicalMIMEHeaderKey (a : string) : string :=
  match looksLikeHeaderKey false a with
  | None => a
  | Some true => a
  | Some false => canonicalize true a
  end.

(** the quick check of [CanonicalMIMEHeaderKey]: does the loop reach a byte
    in the wrong case before it reaches an invalid byte or the end? *)
Fixpoint miscased (upper : bool) (s : string) : bool :=
  match s with
  | EmptyString => false
  | String c s' =>
      if negb (validHeaderFieldByte c) then false
      else if upper && isLower c then true
      else if negb upper && isUpper c then true
      else miscased (Ascii.eqb c "-") s'
  end.

Definition CanonicalMIMEHeaderKey (s : string) : string :=
  if miscased true s then canonicalMIMEHeaderKey s else s.

End textproto.

(** ** net/http: headers, requests, response writers *)

Module http.

Definition StatusOK : Z := 200.
Definition StatusBadRequest : Z := 400.
Definition StatusConflict : Z := 409.
Definition StatusInternalServerError : Z := 500.

Definition MethodGet : string := "GET".
Definition MethodPost : string := "POST".
Definition MethodPut : string := "PUT".
Definition MethodPatch : string := "PATCH".
Definition MethodDelete : string := "DELETE".

(** [type Header map[string][]string] *)
Abbreviation Header := (gmap string (list string)).

Definition Header_Add (key value : string) (h : Header) : Header :=
  let k := textproto.CanonicalMIMEHeaderKey key in
  <[k := default [] (h !! k) ++ [value]]> h.

Definition Header_Set (key value : string) (h : Header) : Header :=
  <[textproto.CanonicalMIMEHeaderKey key := [value]]> h.

Definition Header_Get (key : string) (h : Header) : string :=
  match h !! textproto.CanonicalMIMEHeaderKey key with
  | Some (v :: _) => v
  | _ => EmptyString
  end.

Definition Header_Del (key : string) (h : Header) : Header :=
  delete (textproto.CanonicalMIMEHeaderKey key) h.

(** The values of the model are immutable, so a copy is the map itself. *)
Definition Header_Clone (h : Header) : Header := h.

(** A request body: the bytes the reader delivers, and the error it ends
    with if it does not end with [io.EOF]. *)
Record ReadCloser : Type := mkBody { content : string; failure : option error }.

(** [io.ReadAll] *)
Definition ReadAll (b : ReadCloser) : string * option error := (content b, failure b).

(** [io.NopCloser(bytes.NewBuffer(b))] *)
Definition NopCloser (b : string) : ReadCloser := mkBody b None.

Record Request : Type := mkRequest {
  Method : string;
  Path : string;            (* r.URL.Path *)
  Header_ : Header;         (* r.Header *)
  Body : ReadCloser
}.

(** [interface ResponseWriter].  [Header()] hands out the writer's own map,
    which the caller mutates in place: [setHeader] stores the mutated map
    back.  [Write]'s results are not used by the package. *)
Class ResponseWriter (W : Type) : Type := {
  getHeader : W -> Header;
  setHeader : Header -> W -> W;
  WriteHeader : Z -> W -> W;
  Write : string -> W -> W
}.

(** The server's writer (net/http's [response]): the header map of the
    handler, and what has gone to the client: the status line and the
    headers as they were at the first [WriteHeader], then the body. *)
Record response : Type := mkResponse {
  handlerHeader : Header;
  wroteHeader : bool;
  status : Z;
  sentHeader : Header;
  written : string
}.

Definition newResponse : response := mkResponse ∅ false 0 ∅ EmptyString.

Definition response_WriteHeader (code : Z) (w : response) : response :=
  if wroteHeader w then w   (* superfluous call: logged and ignored *)
  else mkResponse (handlerHeader w) true code (handlerHeader w) (written w).

Definition response_Write (b : string) (w : response) : response :=
  let w := if wroteHeader w then w else response_WriteHeader StatusOK w in
  mkResponse (handlerHeader w) (wroteHeader w) (status w) (sentHeader w)
             (written w +:+ b).

#[global] Instance response_writer : ResponseWriter response := {
  getHeader := handlerHeader;
  setHeader h w := mkResponse h (wroteHeader w) (status w) (sentHeader w) (written w);
  WriteHeader := response_WriteHeader;
  Write := response_Write
}.

(** When the handler returns, the server sends the header if the handler
    has not. *)
Definition finishRequest (w : response) : response :=
  if wroteHeader w then w else response_WriteHeader StatusOK w.

(** What the client receives: status, headers, body. *)
Definition received (w : response) : Z * Header * string :=
  let w := finishRequest w in (status w, sentHeader w, written w).

(** [http.Error] *)
Definition Error {W} `{ResponseWriter W} (w : W) (error : string) (code : Z) : W :=
  let w := setHeader (Header_Del "Content-Length" (getHeader w)) w in
  let w := setHeader (Header_Set "Content-Type" "text/plain; charset=utf-8" (getHeader w)) w in
  let w := setHeader (Header_Set "X-Content-Type-Options" "nosniff" (getHeader w)) w in
  let w := WriteHeader code w in
  let w := Write (error +:+ String (ascii_of_N 10) EmptyString) w in
  w.

(** What a handler does to the writer it is given. *)
Inductive WriterOp : Type :=
| OpHeaderAdd (key value : string)
| OpHeaderSet (key value : string)
| OpHeaderDel (key : string)
| OpWriteHeader (code : Z)
| OpWrite (b : string).

Definition apply_op {W} `{ResponseWriter W} (w : W) (op : WriterOp) : W :=
  match op with
  | OpHeaderAdd k v => setHeader (Header_Add k v (getHeader w)) w
  | OpHeaderSet k v => setHeader (Header_Set k v (getHeader w)) w
  | OpHeaderDel k => setHeader (Header_Del k (getHeader w)) w
  | OpWriteHeader code => WriteHeader code w
  | OpWrite b => Write b w
  end.

Definition apply_ops {W} `{ResponseWriter W} (ops : list WriterOp) (w : W) : W :=
  foldl apply_op w ops.

(** [interface Handler], the wrapped business logic.  It is opaque: from the
    request and its own state [A] it decides what to write and its next
    state.  [ServeHTTP] below runs it against a writer.  A handler of
    this type returns, and so does every write it makes;
    [PanickingHandler] below is the handler that may panic. *)
Definition Handler (A : Type) : Type := Request -> A -> list WriterOp * A.

(** How a call ends: it returns, or it panics and unwinds its callers.  A
    panic that reaches the server is recovered there ([conn.serve]): it
    is logged and the connection is closed. *)
Inductive Outcome : Type := Returned | Panicked.

(** [checkWriteHeaderCode]: [WriteHeader] panics on a status code outside
    100..999. *)
Definition checkWriteHeaderCode (code : Z) : bool :=
  (100 <=? code)%Z && (code <=? 999)%Z.

(** Where the [WriteHeader] of a writer panics: [Some w'] when the call
    with [code] panics, leaving the writer as [w']. *)
Class WriterPanics (W : Type) : Type := {
  WriteHeader_panics : Z -> W -> option W
}.

(** The server's writer returns from a superfluous call before it checks
    the code. *)
#[global] Instance response_panics : WriterPanics response := {
  WriteHeader_panics code w :=
    if wroteHeader w then None
    else if checkWriteHeaderCode code then None
    else Some w
}.

(** The writes [ops] on [w], up to the first one that panics. *)
Fixpoint perform {W} `{ResponseWriter W} `{WriterPanics W}
    (ops : list WriterOp) (w : W) : W * Outcome :=
  match ops with
  | [] => (w, Returned)
  | OpWriteHeader code :: ops' =>
      match WriteHeader_panics code w with
      | Some w' => (w', Panicked)
      | None => perform ops' (WriteHeader code w)
      end
  | op :: ops' => perform ops' (apply_op w op)
  end.

(** A handler that may panic: what it writes, its next state, which it
    reaches before it writes, and how its own code ends once the writes
    are made.  A write that panics ends the call there. *)
Definition PanickingHandler (A : Type) : Type :=
  Request -> A -> list WriterOp * A * Outcome.

End http.

(** ** Package idempotency *)

Module idempotency.

Definition Millisecond : Z := 1000000.
Definition Second : Z := 1000 * Millisecond.
Definition Minute : Z := 60 * Second.
Definition Hour : Z := 60 * Minute.

(** *** store.go *)

Record CachedResponse : Type := mkCachedResponse {
  StatusCode : Z;
  Headers : http.Header;
  Body : string;
  Timestamp : Z
}.

(** [interface Store].  A store is a state [S] and three operations on it;
    each takes the instant [now] at which it runs.
    - [Get] returns the two results of the Go method, the response and
      the error, each possibly [nil];
    - [Set] returns its [error], possibly [nil];
    - [Lock] returns either the [unlock] closure, which acts on the store
      when it is called, or the error. *)
Class Store (S : Type) : Type := {
  Store_Get : string -> Z -> S -> S * (option CachedResponse * option error);
  Store_Set : string -> CachedResponse -> Z -> Z -> S -> S * option error;
  Store_Lock : string -> Z -> S -> S * ((S -> S) + error)
}.

(** *** options.go *)

Definition KeyFunc : Type :=
  http.Request -> string -> http.Request * (string + error).

Record Config : Type := mkConfig {
  HeaderName : string;
  TTL : Z;
  KeyFunc_ : KeyFunc
}.

Definition Option : Type := Config -> Config.

Definition WithHeaderName (name : string) : Option :=
  fun c => mkConfig name (TTL c) (KeyFunc_ c).

Definition WithTTL (ttl : Z) : Option :=
  fun c => mkConfig (HeaderName c) ttl (KeyFunc_ c).

Definition WithKeyFunc (fn : KeyFunc) : Option :=
  fun c => mkConfig (HeaderName c) (TTL c) fn.

(** *** middleware.go *)

Definition DefaultHeaderName : string := "Idempotency-Key".
Definition DefaultTTL : Z := 24 * Hour.

Definition isIdempotentMethod (method : string) : bool :=
  String.eqb method http.MethodPost
  || String.eqb method http.MethodPatch
  || String.eqb method http.MethodPut.

(** The request comes back with its body replaced by a fresh reader over
    the bytes that were read. *)
Definition defaultKeyFunc : KeyFunc := fun r idempotencyKey =>
  match http.ReadAll (http.Body r) with
  | (_, Some err) => (r, inr err)
  | (body, None) =>
      let r := http.mkRequest (http.Method r) (http.Path r) (http.Header_ r)
                              (http.NopCloser body) in
      let h := sha256.New in
      let h := sha256.Write (http.Method r) h in
      let h := sha256.Write (http.Path r) h in
      let h := sha256.Write body h in
      let fingerprint := hex (sha256.Sum h) in
      (r, inl (idempotencyKey +:+ ":" +:+ fingerprint))
  end.

(** [responseRecorder]: [Header()] is the embedded writer's. *)
Record responseRecorder (W : Type) : Type := mkRecorder {
  ResponseWriter : W;
  statusCode : Z;
  body : string
}.
Arguments mkRecorder {W}.
Arguments ResponseWriter {W}.
Arguments statusCode {W}.
Arguments body {W}.

#[global] Instance recorder_writer {W} `{http.ResponseWriter W} :
  http.ResponseWriter (responseRecorder W) := {
  getHeader r := http.getHeader (ResponseWriter r);
  setHeader h r := mkRecorder (http.setHeader h (ResponseWriter r)) (statusCode r) (body r);
  WriteHeader code r :=
    mkRecorder (http.WriteHeader code (ResponseWriter r)) code (body r);
  Write b r :=
    mkRecorder (http.Write b (ResponseWriter r)) (statusCode r) (body r +:+ b)
}.

(** [WriteHeader] of the recorder sets [statusCode], then calls the
    embedded writer, where it may panic. *)
#[global] Instance recorder_panics {W} `{http.WriterPanics W} :
  http.WriterPanics (responseRecorder W) := {
  WriteHeader_panics code r :=
    match http.WriteHeader_panics code (ResponseWriter r) with
    | Some w => Some (mkRecorder w code (body r))
    | None => None
    end
}.

(** The loop of [writeCachedResponse] over the entries [kvs] of the cached
    header map, in the order in which [range] yields them. *)
Definition addValues {W} `{http.ResponseWriter W}
    (w : W) (kv : string * list string) : W :=
  foldl (fun w value => http.setHeader (http.Header_Add kv.1 value (http.getHeader w)) w)
        w kv.2.

Definition writeCachedResponse_ranged {W} `{http.ResponseWriter W}
    (kvs : list (string * list string)) (w : W) (cached : CachedResponse) : W :=
  let w := foldl addValues w kvs in
  let w := http.setHeader
             (http.Header_Set "X-Idempotency-Cached" "true" (http.getHeader w)) w in
  let w := http.WriteHeader (StatusCode cached) w in
  let w := http.Write (Body cached) w in
  w.

(** Go leaves the order of [range] over a map open; the model ranges in the
    order of [map_to_list].  ([writeCachedResponse_order] below: the order
    does not matter when the keys are canonical.) *)
Definition writeCachedResponse {W} `{http.ResponseWriter W}
    (w : W) (cached : CachedResponse) : W :=
  writeCachedResponse_ranged (map_to_list (Headers cached)) w cached.

(** What the middleware does to the store and to the wrapped handler, in
    the order in which it does it. *)
Inductive Event : Type :=
| EvKeyFunc (key : string)
| EvLock (fullKey : string)
| EvGet (fullKey : string)
| EvSet (fullKey : string) (response : CachedResponse) (ttl : Z)
| EvUnlock (fullKey : string)
| EvServe (r : http.Request).

(** The world a request runs in: the store, the state of the wrapped
    handler, and the events so far. *)
Record World (S A : Type) : Type := mkWorld {
  store : S;
  app : A;
  log : list Event
}.
Arguments mkWorld {S A}.
Arguments store {S A}.
Arguments app {S A}.
Arguments log {S A}.

Section Middleware.
Context {S : Type} `{Store S} {A : Type} {W : Type} `{http.ResponseWriter W}.

Definition emit (e : Event) (σ : World S A) : World S A :=
  mkWorld (store σ) (app σ) (log σ ++ [e]).

Definition onStore {R : Type} (e : Event) (op : S -> S * R) (σ : World S A)
    : World S A * R :=
  let '(s, res) := op (store σ) in
  (mkWorld s (app σ) (log σ ++ [e]), res).

(** [next.ServeHTTP(w, r)], against any writer *)
Definition ServeHTTP {V} `{http.ResponseWriter V}
    (next : http.Handler A) (w : V) (r : http.Request) (σ : World S A)
    : V * World S A :=
  let '(ops, a) := next r (app σ) in
  (http.apply_ops ops w, mkWorld (store σ) a (log σ ++ [EvServe r])).

Definition newConfig (opts : list Option) : Config :=
  foldl (fun config opt => opt config)
        (mkConfig DefaultHeaderName DefaultTTL defaultKeyFunc) opts.

(** [Middleware(store, opts...)(next)] serving the request [r] on the
    writer [w] at the instant [now]; the store is the one of the world
    [σ].  A request is served at one instant: the time the handler takes
    is not modelled. *)
Definition Middleware (opts : list Option) (next : http.Handler A)
    (now : Z) (w : W) (r : http.Request) (σ : World S A) : W * World S A :=
  let config := newConfig opts in
  if negb (isIdempotentMethod (http.Method r)) then ServeHTTP next w r σ
  else
    let key := http.Header_Get (HeaderName config) (http.Header_ r) in
    if String.eqb key EmptyString then ServeHTTP next w r σ
    else
      let '(r, res) := KeyFunc_ config r key in
      let σ := emit (EvKeyFunc key) σ in
      match res with
      | inr _ => (http.Error w "Invalid idempotency key" http.StatusBadRequest, σ)
      | inl fullKey =>
          let '(σ, res) := onStore (EvLock fullKey) (Store_Lock fullKey now) σ in
          match res with
          | inr err =>
              if decide (err = ErrRequestInProgress)
              then (http.Error w "Request already in progress" http.StatusConflict, σ)
              else (http.Error w "Internal server error"
                               http.StatusInternalServerError, σ)
          | inl unlock =>
              let '(σ, res) := onStore (EvGet fullKey) (Store_Get fullKey now) σ in
              match res with
              | (Some cached, None) =>
                  let '(σ, _) := onStore (EvUnlock fullKey) (fun s => (unlock s, tt)) σ in
                  (writeCachedResponse w cached, σ)
              | _ =>
                  let recorder := mkRecorder w http.StatusOK EmptyString in
                  let '(recorder, σ) := ServeHTTP next recorder r σ in
                  let cached :=
                    mkCachedResponse (statusCode recorder)
                                     (http.Header_Clone (http.getHeader recorder))
                                     (body recorder) now in
                  let '(σ, _) :=
                    onStore (EvSet fullKey cached (TTL config))
                            (Store_Set fullKey cached (TTL config) now) σ in
                  let '(σ, _) := onStore (EvUnlock fullKey) (fun s => (unlock s, tt)) σ in
                  (ResponseWriter recorder, σ)
              end
          end
      end.
End Middleware.

(** The same code when calls can panic.  Nothing in the package recovers a
    panic and no call is deferred: a panic in [next.ServeHTTP] or in a
    write unwinds through the middleware, and what comes after the call in
    the source is not run. *)
Section Panics.
Context {S : Type} `{Store S} {A : Type}
        {W : Type} `{http.ResponseWriter W} `{http.WriterPanics W}.

(** [next.ServeHTTP(w, r)] for a handler that may panic *)
Definition ServeHTTP_panicking {V} `{http.ResponseWriter V} `{http.WriterPanics V}
    (next : http.PanickingHandler A) (w : V) (r : http.Request) (σ : World S A)
    : V * World S A * http.Outcome :=
  let '(ops, a, fin) := next r (app σ) in
  let '(w, end_) := http.perform ops w in
  (w, mkWorld (store σ) a (log σ ++ [EvServe r]),
   match end_ with http.Panicked => http.Panicked | http.Returned => fin end).

(** [writeCachedResponse], whose [WriteHeader] panics on a stored status
    that is no status code *)
Definition writeCachedResponse_panicking (w : W) (cached : CachedResponse)
    : W * http.Outcome :=
  let w := foldl addValues w (map_to_list (Headers cached)) in
  let w := http.setHeader
             (http.Header_Set "X-Idempotency-Cached" "true" (http.getHeader w)) w in
  match http.WriteHeader_panics (StatusCode cached) w with
  | Some w => (w, http.Panicked)
  | None => (http.Write (Body cached) (http.WriteHeader (StatusCode cached) w),
             http.Returned)
  end.

Definition Middleware_panicking (opts : list Option) (next : http.PanickingHandler A)
    (now : Z) (w : W) (r : http.Request) (σ : World S A)
    : W * World S A * http.Outcome :=
  let config := newConfig opts in
  if negb (isIdempotentMethod (http.Method r)) then ServeHTTP_panicking next w r σ
  else
    let key := http.Header_Get (HeaderName config) (http.Header_ r) in
    if String.eqb key EmptyString then ServeHTTP_panicking next w r σ
    else
      let '(r, res) := KeyFunc_ config r key in
      let σ := emit (EvKeyFunc key) σ in
      match res with
      | inr _ =>
          (http.Error w "Invalid idempotency key" http.StatusBadRequest, σ, http.Returned)
      | inl fullKey =>
          let '(σ, res) := onStore (EvLock fullKey) (Store_Lock fullKey now) σ in
          match res with
          | inr err =>
              if decide (err = ErrRequestInProgress)
              then (http.Error w "Request already in progress" http.StatusConflict, σ,
                    http.Returned)
              else (http.Error w "Internal server error"
                               http.StatusInternalServerError, σ, http.Returned)
          | inl unlock =>
              let '(σ, res) := onStore (EvGet fullKey) (Store_Get fullKey now) σ in
              match res with
              | (Some cached, None) =>
                  let '(σ, _) := onStore (EvUnlock fullKey) (fun s => (unlock s, tt)) σ in
                  let '(w, end_) := writeCachedResponse_panicking w cached in
                  (w, σ, end_)
              | _ =>
                  let recorder := mkRecorder w http.StatusOK EmptyString in
                  let '(recorder, σ, end_) := ServeHTTP_panicking next recorder r σ in
                  match end_ with
                  | http.Panicked => (ResponseWriter recorder, σ, http.Panicked)
                  | http.Returned =>
                      let cached :=
                        mkCachedResponse (statusCode recorder)
                                         (http.Header_Clone (http.getHeader recorder))
                                         (body recorder) now in
                      let '(σ, _) :=
                        onStore (EvSet fullKey cached (TTL config))
                                (Store_Set fullKey cached (TTL config) now) σ in
                      let '(σ, _) :=
                        onStore (EvUnlock fullKey) (fun s => (unlock s, tt)) σ in
                      (ResponseWriter recorder, σ, http.Returned)
                  end
              end
          end
      end.
End Panics.

End idempotency.

(** ** The Redis client, as far as the store uses it

    The server is a keyspace of values with the instant at which each
    expires; a key is there until that instant.  The client records the
    commands it sends.  When the server cannot be reached a command fails
    and changes nothing. *)

Module redis.

Inductive Cmd : Type :=
| CmdSetNX (key value : string) (expiration : Z)
| CmdDel (key : string).

Record Client : Type := mkClient {
  keyspace : gmap string (string * Z);
  reachable : bool;
  sent : list Cmd
}.

Definition exists_at (now : Z) (key : string) (c : Client) : bool :=
  match keyspace c !! key with
  | Some (_, expires) => (now <? expires)%Z
  | None => false
  end.

Definition unreachable : error := errorString "dial tcp: connection refused".

(** [client.SetNX(ctx, key, value, expiration).Result()]: one atomic
    set-if-absent with a time to live *)
Definition SetNX (key value : string) (expiration : Z) (now : Z) (c : Client)
    : Client * (bool + error) :=
  let c := mkClient (keyspace c) (reachable c) (sent c ++ [CmdSetNX key value expiration]) in
  if negb (reachable c) then (c, inr unreachable)
  else if exists_at now key c then (c, inl false)
  else (mkClient (<[key := (value, (now + expiration)%Z)]> (keyspace c))
                 (reachable c) (sent c), inl true).

(** [client.Del(ctx, key)] *)
Definition Del (key : string) (c : Client) : Client * option error :=
  let c := mkClient (keyspace c) (reachable c) (sent c ++ [CmdDel key]) in
  if negb (reachable c) then (c, Some unreachable)
  else (mkClient (delete key (keyspace c)) (reachable c) (sent c), None).

End redis.

(** ** Package store *)

Module store.
Import idempotency.

(** *** memory.go *)

Record entry : Type := mkEntry {
  response : CachedResponse;
  expiresAt : Z
}.

(** A [sync.Mutex] of the [locks] map: whether it is locked, and how many
    goroutines spawned by [Lock] calls that have since returned are still
    blocked in [mu.Lock()]. *)
Record Mutex : Type := mkMutex {
  locked : bool;
  parked : nat
}.

Record MemoryStore : Type := mkMemoryStore {
  data : gmap string entry;
  locks : gmap string Mutex
}.

Definition NewMemoryStore : MemoryStore := mkMemoryStore ∅ ∅.

(** [t.After(u)] *)
Definition After (t u : Z) : bool := (u <? t)%Z.

Definition MemoryStore_Get (key : string) (now : Z) (s : MemoryStore)
    : MemoryStore * (option CachedResponse * option error) :=
  match data s !! key with
  | None => (s, (None, Some ErrNotFound))
  | Some entry =>
      if After now (expiresAt entry) then (s, (None, Some ErrNotFound))
      else (s, (Some (response entry), None))
  end.

Definition MemoryStore_Set (key : string) (response : CachedResponse) (ttl : Z)
    (now : Z) (s : MemoryStore) : MemoryStore * option error :=
  (mkMemoryStore (<[key := mkEntry response (now + ttl)%Z]> (data s)) (locks s), None).

(** One round of the loop of [cleanup], at the tick [now]. *)
Definition cleanup (now : Z) (s : MemoryStore) : MemoryStore :=
  mkMemoryStore (filter (fun kv => After now (expiresAt kv.2) = false) (data s))
                (locks s).

(** The [locks] map never loses an entry, so the pointer that [Lock] and
    the closures it makes hold is the entry of their key.  A key that has
    no entry yet stands for a mutex that nobody has touched. *)
Definition getMutex (key : string) (s : MemoryStore) : Mutex :=
  default (mkMutex false 0) (locks s !! key).

Definition setMutex (key : string) (mu : Mutex) (s : MemoryStore) : MemoryStore :=
  mkMemoryStore (data s) (<[key := mu]> (locks s)).

(** The first lines of [Lock]: the mutex of [key], made if it is not
    there. *)
Definition mutexOf (key : string) (s : MemoryStore) : Mutex * MemoryStore :=
  match locks s !! key with
  | Some mu => (mu, s)
  | None => (mkMutex false 0, setMutex key (mkMutex false 0) s)
  end.

(** [mu.Unlock()] on the mutex of [key] *)
Definition unlockMutex (key : string) (s : MemoryStore) : MemoryStore :=
  setMutex key (mkMutex false (parked (getMutex key s))) s.

(** A goroutine blocked in [mu.Lock()] gets the mutex. *)
Definition lockMutex (key : string) (s : MemoryStore) : MemoryStore :=
  setMutex key (mkMutex true (parked (getMutex key s))) s.

(** A [Lock] call returns on the timeout; its goroutine stays blocked. *)
Definition parkGoroutine (key : string) (s : MemoryStore) : MemoryStore :=
  setMutex key (mkMutex (locked (getMutex key s))
                        (Datatypes.S (parked (getMutex key s)))) s.

(** A goroutine left behind by a timed-out call gets the mutex: nobody
    reads its channel, nobody holds an [unlock] for it. *)
Definition parkedAcquires (key : string) (s : MemoryStore) : option MemoryStore :=
  match getMutex key s with
  | mkMutex false (Datatypes.S n) => Some (setMutex key (mkMutex true n) s)
  | _ => None
  end.

(** [Lock] when no other goroutine runs between its first and its last
    line: the goroutine it spawns gets a free mutex at once; on a locked
    mutex it is still blocked when the 100 ms have passed.  Among the
    schedules of the goroutines of [Lock], which [step] below gives in
    full, these are [Call; Acquire; Return] and [Call; Timeout].  A holder
    that calls [unlock] within the 100 ms, and a goroutine left blocked by
    an earlier call that takes a free mutex first, are other schedules:
    the properties of the middleware on this store exclude them where they
    matter, by asking that no goroutine is blocked on the mutex or by
    saying that nobody else runs. *)
Definition MemoryStore_Lock (key : string) (now : Z) (s : MemoryStore)
    : MemoryStore * ((MemoryStore -> MemoryStore) + error) :=
  let '(mu, s) := mutexOf key s in
  if locked mu then (parkGoroutine key s, inr ErrRequestInProgress)
  else (lockMutex key s, inl (unlockMutex key)).

#[global] Instance MemoryStore_Store : Store MemoryStore := {
  Store_Get := MemoryStore_Get;
  Store_Set := MemoryStore_Set;
  Store_Lock := MemoryStore_Lock
}.

(** [Lock] among other goroutines.  A call [c] of [Lock(key)] goes through
    these states. *)
Inductive CallState : Type :=
| Selecting   (* its goroutine is blocked in mu.Lock(), the caller is in the select *)
| Signalled   (* its goroutine has the mutex and has closed the channel *)
| Holding     (* the call has returned unlock, which has not been called *)
| Released    (* the call has returned unlock, which has been called *)
| TimedOut.   (* the call has returned ErrRequestInProgress *)

Record Goroutines : Type := mkGoroutines {
  mem : MemoryStore;
  calls : gmap nat (string * CallState)
}.

Inductive Step : Type :=
| Call (c : nat) (key : string)  (* Lock(key) runs up to the select *)
| Acquire (c : nat)              (* the goroutine of c gets the mutex, closes the channel *)
| Return (c : nat)               (* the select of c takes <-locked *)
| Timeout (c : nat)              (* the select of c takes <-time.After *)
| Release (c : nat)              (* the unlock returned to c is called *)
| Orphan (key : string).         (* a goroutine of a timed-out call gets the mutex *)

Definition isLocked (key : string) (s : MemoryStore) : bool :=
  locked (getMutex key s).

Definition parkedOn (key : string) (s : MemoryStore) : nat :=
  parked (getMutex key s).

Definition setCall (c : nat) (key : string) (cs : CallState) (g : Goroutines)
    (s : MemoryStore) : Goroutines :=
  mkGoroutines s (<[c := (key, cs)]> (calls g)).

(** The step [e] from [g], if it can be taken there.  Each [unlock] is
    called at most once, as the middleware does. *)
Definition step (e : Step) (g : Goroutines) : option Goroutines :=
  match e with
  | Call c key =>
      match calls g !! c with
      | None => Some (setCall c key Selecting g (mutexOf key (mem g)).2)
      | Some _ => None
      end
  | Acquire c =>
      match calls g !! c with
      | Some (key, Selecting) =>
          if isLocked key (mem g) then None
          else Some (setCall c key Signalled g (lockMutex key (mem g)))
      | _ => None
      end
  | Return c =>
      match calls g !! c with
      | Some (key, Signalled) => Some (setCall c key Holding g (mem g))
      | _ => None
      end
  | Timeout c =>
      match calls g !! c with
      | Some (key, Selecting) => Some (setCall c key TimedOut g (parkGoroutine key (mem g)))
      | Some (key, Signalled) => Some (setCall c key TimedOut g (mem g))
      | _ => None
      end
  | Release c =>
      match calls g !! c with
      | Some (key, Holding) => Some (setCall c key Released g (unlockMutex key (mem g)))
      | _ => None
      end
  | Orphan key =>
      match parkedAcquires key (mem g) with
      | Some s => Some (mkGoroutines s (calls g))
      | None => None
      end
  end.

Fixpoint run (es : list Step) (g : Goroutines) : option Goroutines :=
  match es with
  | [] => Some g
  | e :: es' =>
      match step e g with
      | Some g' => run es' g'
      | None => None
      end
  end.

Definition start : Goroutines := mkGoroutines NewMemoryStore ∅.

(** What the call [c] has returned, if it has. *)
Definition returned (c : nat) (g : Goroutines) : option (unit + error) :=
  match calls g !! c with
  | Some (_, Holding) | Some (_, Released) => Some (inl tt)
  | Some (_, TimedOut) => Some (inr ErrRequestInProgress)
  | _ => None
  end.

(** *** redis.go *)

Abbreviation RedisStore := redis.Client.

Definition RedisStore_Lock (key : string) (now : Z) (s : RedisStore)
    : RedisStore * ((RedisStore -> RedisStore) + error) :=
  let lockKey := "lock:" +:+ key in
  match redis.SetNX lockKey "1" (30 * Second) now s with
  | (s, inr err) => (s, inr err)
  | (s, inl false) => (s, inr ErrRequestInProgress)
  | (s, inl true) => (s, inl (fun s => (redis.Del lockKey s).1))
  end.

End store.

(** * The vocabulary of the properties *)

Import idempotency store.

(** ** Headers *)

Definition canonicalKey (k : string) : Prop := textproto.CanonicalMIMEHeaderKey k = k.

(** A header map as [Add], [Set] and [Del] build it: canonical keys, no
    empty list of values. *)
Definition canonicalHeader (h : http.Header) : Prop :=
  forall k vs, h !! k = Some vs -> canonicalKey k /\ vs <> [].

(** What the inner loop of [writeCachedResponse] does to a header map. *)
Definition addAll (h : http.Header) (kv : string * list string) : http.Header :=
  foldl (fun h v => http.Header_Add kv.1 v h) h kv.2.

Definition marker : string := "X-Idempotency-Cached".

(** ** Handlers *)



Fixpoint bodyOf (ops : list http.WriterOp) : string :=
  match ops with
  | [] => EmptyString
  | http.OpWrite b :: ops' => b +:+ bodyOf ops'
  | _ :: ops' => bodyOf ops'
  end.

(** ** Events *)

Definition isUnlock (e : Event) : bool :=
  match e with EvUnlock _ => true | _ => false end.

Definition isServe (e : Event) : bool :=
  match e with EvServe _ => true | _ => false end.

(** how many times an [unlock] has been called *)
Definition releases (l : list Event) : nat := length (List.filter isUnlock l).

(** how many times the wrapped handler has been invoked *)
Definition invocations (l : list Event) : nat := length (List.filter isServe l).

(** What the middleware captures of the handler [next] serving [r] on [w]. *)
Definition captured {A W} `{http.ResponseWriter W}
    (next : http.Handler A) (r : http.Request) (a : A) (w : W) (now : Z) : CachedResponse :=
  let recorder := http.apply_ops (next r a).1 (mkRecorder w http.StatusOK EmptyString) in
  mkCachedResponse (statusCode recorder) (http.Header_Clone (http.getHeader recorder))
                   (body recorder) now.

(** The key that [defaultKeyFunc] makes of a request whose body can be
    read. *)
Definition fingerprintOf (r : http.Request) (key : string) : string :=
  key +:+ ":" +:+
  hex (sha256.Sum (http.Method r +:+ http.Path r +:+ http.content (http.Body r))).

(** ** The goroutines of [Lock] *)

(** A call owns the mutex of its key from the moment its goroutine gets it
    until its [unlock] is called. *)
Definition owns (cs : CallState) : bool :=
  match cs with Signalled | Holding => true | _ => false end.

Definition noOwner (key : string) (g : Goroutines) : Prop :=
  forall c cs, calls g !! c = Some (key, cs) -> owns cs = false.

(** An unlocked mutex has no owner, and no mutex has two. *)
Definition consistent (g : Goroutines) : Prop :=
  forall key,
    (isLocked key (mem g) = false -> noOwner key g)
    /\ (forall c1 c2 cs1 cs2,
          calls g !! c1 = Some (key, cs1) -> calls g !! c2 = Some (key, cs2) ->
          owns cs1 = true -> owns cs2 = true -> c1 = c2).


(** ** Test data: a handler, requests, stores *)

(** A handler that counts its invocations and answers with the body it was
    sent. *)
Definition charge : http.Handler nat := fun r n =>
  ([http.OpHeaderSet "Content-Type" "text/plain"; http.OpWriteHeader 200;
    http.OpWrite ("charged " +:+ http.content (http.Body r))], Datatypes.S n).

Definition post (path key body : string) : http.Request :=
  http.mkRequest "POST" path {["Idempotency-Key" := [key]]} (http.mkBody body None).

(** A request whose body breaks off. *)
Definition truncated (path key body : string) : http.Request :=
  http.mkRequest "POST" path {["Idempotency-Key" := [key]]}
                 (http.mkBody body (Some (errorString "unexpected EOF"))).

Definition payment : http.Request := post "/api/payment" "pay-1" "amount=100".

Definition paid : CachedResponse :=
  mkCachedResponse 201 {["Content-Type" := ["text/plain"]]} "charged amount=100" 0.

(** An in-memory store that holds [paid] for [payment] until the instant
    100. *)
Definition stocked : MemoryStore :=
  mkMemoryStore {[fingerprintOf payment "pay-1" := mkEntry paid 100]} ∅.

(** A store whose reads fail: a [MemoryStore] behind a connection that drops
    every [Get]. *)
Record Unreadable : Type := mkUnreadable { behind : MemoryStore }.

Definition io_timeout : error := errorString "i/o timeout".

#[global] Instance Unreadable_Store : Store Unreadable := {
  Store_Get key now s := (s, (None, Some io_timeout));
  Store_Set key response ttl now s :=
    (mkUnreadable (MemoryStore_Set key response ttl now (behind s)).1, None);
  Store_Lock key now s :=
    match MemoryStore_Lock key now (behind s) with
    | (m, inl unlock) => (mkUnreadable m, inl (fun s => mkUnreadable (unlock (behind s))))
    | (m, inr err) => (mkUnreadable m, inr err)
    end
}.

(** ** Panics *)

(** A handler that returns, among those that may panic. *)
Definition returning {A} (next : http.Handler A) : http.PanickingHandler A :=
  fun r a => (next r a, http.Returned).

(** What a handler writes and its next state, its panics left aside. *)
Definition withoutPanics {A} (next : http.PanickingHandler A) : http.Handler A :=
  fun r a => (next r a).1.

(** The call of [next] for [r] on the writer [w] returns: neither a write on
    [w] nor the handler's own code panics. *)
Definition returns {A W} `{http.ResponseWriter W} `{http.WriterPanics W}
    (next : http.PanickingHandler A) (r : http.Request) (a : A) (w : W) : Prop :=
  (http.perform (next r a).1.1 w).2 = http.Returned /\ (next r a).2 = http.Returned.

(** Every status code that the handler writes is one. *)
Definition validCodes (ops : list http.WriterOp) : bool :=
  forallb (fun op => match op with
                     | http.OpWriteHeader code => http.checkWriteHeaderCode code
                     | _ => true
                     end) ops.

(** ** Writers and stores at rest *)



(** ** Test data: handlers that panic, a plain fingerprint *)

(** A handler that charges and panics before it has written anything. *)
Definition crash : http.PanickingHandler nat := fun r n =>
  ([], Datatypes.S n, http.Panicked).

(** A handler that answers with a status that is no status code. *)
Definition badStatus : http.PanickingHandler nat := fun r n =>
  ([http.OpWriteHeader 0; http.OpWrite "charged"], Datatypes.S n, http.Returned).

(** A fingerprint function that takes the idempotency key as it is. *)
Definition byKey : KeyFunc := fun r key => (r, inl key).

(** ** Further vocabulary *)

(** The status the recorder holds after the writes [ops]: the last one
    written, or the one it started with. *)
Definition lastStatus (code : Z) (ops : list http.WriterOp) : Z :=
  foldl (fun code op => match op with http.OpWriteHeader c => c | _ => code end) code ops.

(** No mutex of the store is locked and no goroutine is blocked on one. *)
Definition idle (s : MemoryStore) : Prop :=
  forall key, isLocked key s = false /\ parkedOn key s = 0.

(** The key whose mutex the step [e] works on. *)
Definition keyOf (e : Step) (g : Goroutines) : option string :=
  match e with
  | Call _ key | Orphan key => Some key
  | Acquire c | Return c | Timeout c | Release c => fst <$> calls g !! c
  end.

(** The error of a [Lock] result, [None] when it is an [unlock]. *)
Definition lockError {S : Type} (res : (S -> S) + error) : option error :=
  match res with inl _ => None | inr err => Some err end.

(** * Properties *)

(** ** Checks of the library models against known values *)
Example sha256_abc :
  hex (sha256.Sum "abc") = "ba7816bf8f01cfea414140de5dae2223b00361a396177a9cb410ff61f20015ad".
Proof. by vm_compute. Qed.

Example sha256_empty :
  hex (sha256.Sum EmptyString)
  = "e3b0c44298fc1c149afbf4c8996fb92427ae41e4649b934ca495991b7852b855".
Proof. by vm_compute. Qed.

Example sha256_two_blocks :
  hex (sha256.Sum "abcdbcdecdefdefgefghfghighijhijkijkljklmklmnlmnomnopnopq")
  = "248d6a61d20638b8e5c026930c3e6039a33ce45964ff2167f6ecedd419db06c1".
Proof. by vm_compute. Qed.

Example canonical_examples :
  textproto.CanonicalMIMEHeaderKey "content-type" = "Content-Type"
  /\ textproto.CanonicalMIMEHeaderKey "x-idempotency-CACHED" = "X-Idempotency-Cached"
  /\ textproto.CanonicalMIMEHeaderKey "content type" = "content type".
Proof. by vm_compute. Qed.

(** ** Strings *)

Lemma append_nil_r (s : string) : s +:+ EmptyString = s.
Proof.
  induction s as [|c s IH]; [done|].
  change (String c (s +:+ EmptyString) = String c s). by rewrite IH.
Qed.

Lemma append_assoc (s t u : string) : (s +:+ t) +:+ u = s +:+ (t +:+ u).
Proof.
  induction s as [|c s IH]; [done|].
  change (String c ((s +:+ t) +:+ u) = String c (s +:+ (t +:+ u))). by rewrite IH.
Qed.

Lemma eqb_empty_false (key : string) : key <> EmptyString -> String.eqb key EmptyString = false.
Proof. intros Hk. by apply String.eqb_neq. Qed.

(** ** Canonical header keys *)





Lemma marker_canonical : canonicalKey marker.
Proof. reflexivity. Qed.

Lemma canonicalHeader_empty : canonicalHeader ∅.
Proof. intros k vs. by rewrite lookup_empty. Qed.





(** ** The loop of [writeCachedResponse] *)

Lemma addAll_canonical h k vs :
  canonicalKey k ->
  addAll h (k, vs) = match vs with [] => h | _ => <[k := default [] (h !! k) ++ vs]> h end.
Proof.
  intros Hk. unfold addAll. cbn [fst snd]. revert h.
  induction vs as [|v vs IH]; intros h; [done|].
  cbn [foldl]. rewrite IH. unfold http.Header_Add. rewrite Hk.
  destruct vs as [|v' vs]; [done|].
  rewrite lookup_insert_eq, insert_insert_eq. cbn [default].
  unfold id. by rewrite <- app_assoc.
Qed.

Lemma foldl_addAll_lookup (l : list (string * list string)) :
  forall h k, NoDup l.*1 -> Forall (fun kv => canonicalKey kv.1) l ->
    foldl addAll h l !! k =
      match (list_to_map l : http.Header) !! k with
      | Some (v :: vs) => Some (default [] (h !! k) ++ v :: vs)
      | _ => h !! k
      end.
Proof.
  induction l as [|[k1 vs1] l IH]; intros h k Hnd Hc.
  - cbn. by rewrite lookup_empty.
  - cbn [foldl]. inversion Hnd as [|? ? Hnotin Hnd']; subst.
    inversion Hc as [|? ? Hk1 Hc']; subst. cbn [fst] in *.
    rewrite IH by done. cbn [list_to_map foldr]. cbn [fst snd uncurry].
    rewrite addAll_canonical by done.
    destruct (decide (k = k1)) as [->|Hne].
    + rewrite lookup_insert_eq.
      rewrite (not_elem_of_list_to_map_1 l k1) by done.
      destruct vs1 as [|v vs1]; [done|]. by rewrite lookup_insert_eq.
    + rewrite (lookup_insert_ne _ k1 k) by done.
      destruct vs1 as [|v vs1]; [done|]. by rewrite lookup_insert_ne.
Qed.

(** The loop of [writeCachedResponse] only touches the header map. *)
Lemma addValues_response (w : http.response) kv :
  addValues w kv
  = http.mkResponse (addAll (http.handlerHeader w) kv) (http.wroteHeader w)
                    (http.status w) (http.sentHeader w) (http.written w).
Proof.
  unfold addValues, addAll. destruct kv as [k vs]. cbn [fst snd].
  revert w. induction vs as [|v vs IH]; intros w; [by destruct w|].
  cbn [foldl]. rewrite IH. reflexivity.
Qed.

Lemma foldl_addValues_response kvs : forall w : http.response,
  foldl addValues w kvs
  = http.mkResponse (foldl addAll (http.handlerHeader w) kvs) (http.wroteHeader w)
                    (http.status w) (http.sentHeader w) (http.written w).
Proof.
  induction kvs as [|kv kvs IH]; intros w; [by destruct w|].
  cbn [foldl]. rewrite IH, addValues_response. reflexivity.
Qed.

Lemma canonicalHeader_keys (m : http.Header) l :
  canonicalHeader m -> l ≡ₚ map_to_list m -> Forall (fun kv => canonicalKey kv.1) l.
Proof.
  intros Hm Hl. apply Forall_forall. intros [k vs] Hin.
  rewrite Hl in Hin. apply elem_of_map_to_list in Hin. by apply Hm in Hin as [? _].
Qed.




(** The order of [range] does not matter for a cached header map with
    canonical keys. *)
Lemma writeCachedResponse_order (l : list (string * list string))
    (w : http.response) (cached : CachedResponse) :
  canonicalHeader (Headers cached) ->
  l ≡ₚ map_to_list (Headers cached) ->
  writeCachedResponse_ranged l w cached = writeCachedResponse w cached.
Proof.
  intros Hc Hl. unfold writeCachedResponse, writeCachedResponse_ranged.
  rewrite !foldl_addValues_response.
  assert (foldl addAll (http.handlerHeader w) l
          = foldl addAll (http.handlerHeader w) (map_to_list (Headers cached))) as ->; [|done].
  assert (NoDup l.*1) as Hnd by (rewrite Hl; apply NoDup_fst_map_to_list).
  apply map_eq. intros k.
  rewrite (foldl_addAll_lookup l) by eauto using canonicalHeader_keys.
  rewrite (foldl_addAll_lookup (map_to_list (Headers cached)))
    by (try apply NoDup_fst_map_to_list; by eapply canonicalHeader_keys).
  by rewrite (list_to_map_proper l (map_to_list (Headers cached)) Hnd Hl).
Qed.

(** ** The recorder *)

(** Running the handler's writes through the recorder. *)
Lemma recorder_apply_ops {W} `{http.ResponseWriter W} ops : forall (rec : responseRecorder W),
  ResponseWriter (http.apply_ops ops rec) = http.apply_ops ops (ResponseWriter rec).
Proof.
  unfold http.apply_ops.
  induction ops as [|op ops IH]; intros rec; [done|].
  cbn [foldl]. rewrite IH. by destruct op.
Qed.



Lemma Error_status (w : http.response) msg code :
  http.wroteHeader w = false -> (http.received (http.Error w msg code)).1.1 = code.
Proof.
  intros Hw. unfold http.Error. cbn.
  unfold http.response_Write, http.response_WriteHeader. cbn. by rewrite Hw.
Qed.

(** ** The paths of the middleware *)

Lemma releases_app l1 l2 : releases (l1 ++ l2) = releases l1 + releases l2.
Proof. unfold releases. by rewrite List.filter_app, length_app. Qed.

Lemma invocations_app l1 l2 : invocations (l1 ++ l2) = invocations l1 + invocations l2.
Proof. unfold invocations. by rewrite List.filter_app, length_app. Qed.

Section Paths.
Context {S : Type} `{Store S} {A : Type}.

(** C6.  A request whose method is not POST, PATCH or PUT, or whose
    configured idempotency header is absent or empty, goes straight to the
    wrapped handler: the middleware calls neither the fingerprint function
    nor the store (the store is unchanged and the only event is the one
    handler invocation), the handler gets the request as it came, and the
    response is exactly what the handler writes on the caller's writer, so
    the middleware adds no marker header. *)
Theorem Middleware_pass_through {W} `{http.ResponseWriter W}
    (opts : list Option) (next : http.Handler A) (now : Z) (w : W)
    (r : http.Request) (σ : World S A) :
  isIdempotentMethod (http.Method r) = false
  \/ http.Header_Get (HeaderName (newConfig opts)) (http.Header_ r) = EmptyString ->
  Middleware opts next now w r σ
  = (http.apply_ops (next r (app σ)).1 w,
     mkWorld (store σ) (next r (app σ)).2 (log σ ++ [EvServe r])).
Proof.
  intros Hby. unfold Middleware, ServeHTTP.
  destruct (isIdempotentMethod (http.Method r)) eqn:Em; cbn [negb].
  - destruct Hby as [?| ->]; [done|]. cbn. by destruct (next r (app σ)).
  - by destruct (next r (app σ)).
Qed.

(** C4.  On the idempotency path, with nothing written yet: when the
    fingerprint function fails the caller receives 400 and the store is
    not touched (no lock is taken); when [Lock] fails with
    [ErrRequestInProgress] the caller receives 409, and 500 when it fails
    with any other error.  In all three cases the wrapped handler is not
    invoked: its state is unchanged and the events are the fingerprinting
    and, in the last two cases, the lock attempt. *)
Theorem Middleware_aborts_before_handler
    (opts : list Option) (next : http.Handler A) (now : Z) (w : http.response)
    (r : http.Request) (σ : World S A) (key : string) :
  isIdempotentMethod (http.Method r) = true ->
  http.Header_Get (HeaderName (newConfig opts)) (http.Header_ r) = key ->
  key <> EmptyString ->
  http.wroteHeader w = false ->
  let out := Middleware opts next now w r σ in
  (forall r' err,
      KeyFunc_ (newConfig opts) r key = (r', inr err) ->
      (http.received out.1).1.1 = http.StatusBadRequest
      /\ out.2 = mkWorld (store σ) (app σ) (log σ ++ [EvKeyFunc key]))
  /\ (forall r' fullKey s err,
      KeyFunc_ (newConfig opts) r key = (r', inl fullKey) ->
      Store_Lock fullKey now (store σ) = (s, inr err) ->
      (http.received out.1).1.1
      = (if decide (err = ErrRequestInProgress) then http.StatusConflict
         else http.StatusInternalServerError)
      /\ out.2 = mkWorld s (app σ) (log σ ++ [EvKeyFunc key; EvLock fullKey])).
Proof.
  intros Hm Hkey Hne Hw out. subst out. unfold Middleware.
  rewrite Hm, Hkey, (eqb_empty_false key Hne). cbn [negb].
  split.
  - intros r' err ->. cbn. split; [by apply Error_status|done].
  - intros r' fullKey s err -> HL. unfold onStore, emit. cbn [store app log].
    rewrite HL. cbn [store app log].
    case_decide; cbn [fst snd]; (split; [by apply Error_status|]);
      by rewrite <- app_assoc.
Qed.

(** The two paths of the middleware once it has the lock. *)
Lemma Middleware_hit {W} `{http.ResponseWriter W}
    (opts : list Option) (next : http.Handler A) (now : Z) (w : W)
    (r r' : http.Request) (σ : World S A) (key fullKey : string)
    (s1 s2 : S) (unlock : S -> S) (cached : CachedResponse) :
  isIdempotentMethod (http.Method r) = true ->
  http.Header_Get (HeaderName (newConfig opts)) (http.Header_ r) = key ->
  key <> EmptyString ->
  KeyFunc_ (newConfig opts) r key = (r', inl fullKey) ->
  Store_Lock fullKey now (store σ) = (s1, inl unlock) ->
  Store_Get fullKey now s1 = (s2, (Some cached, None)) ->
  Middleware opts next now w r σ
  = (writeCachedResponse w cached,
     mkWorld (unlock s2) (app σ)
             (log σ ++ [EvKeyFunc key; EvLock fullKey; EvGet fullKey; EvUnlock fullKey])).
Proof.
  intros Hm Hkey Hne HK HL HG. unfold Middleware.
  rewrite Hm, Hkey, (eqb_empty_false key Hne), HK. cbn [negb].
  unfold onStore, emit. cbn [store app log]. rewrite HL. cbn [store app log].
  rewrite HG. cbn [store app log]. by rewrite <- !app_assoc.
Qed.

Lemma Middleware_miss {W} `{http.ResponseWriter W}
    (opts : list Option) (next : http.Handler A) (now : Z) (w : W)
    (r r' : http.Request) (σ : World S A) (key fullKey : string)
    (s1 s2 s3 : S) (unlock : S -> S) (res : option CachedResponse * option error)
    (err : option error) :
  isIdempotentMethod (http.Method r) = true ->
  http.Header_Get (HeaderName (newConfig opts)) (http.Header_ r) = key ->
  key <> EmptyString ->
  KeyFunc_ (newConfig opts) r key = (r', inl fullKey) ->
  Store_Lock fullKey now (store σ) = (s1, inl unlock) ->
  Store_Get fullKey now s1 = (s2, res) ->
  (forall cached, res <> (Some cached, None)) ->
  Store_Set fullKey (captured next r' (app σ) w now) (TTL (newConfig opts)) now s2
  = (s3, err) ->
  Middleware opts next now w r σ
  = (http.apply_ops (next r' (app σ)).1 w,
     mkWorld (unlock s3) (next r' (app σ)).2
             (log σ ++ [EvKeyFunc key; EvLock fullKey; EvGet fullKey; EvServe r';
                        EvSet fullKey (captured next r' (app σ) w now)
                              (TTL (newConfig opts));
                        EvUnlock fullKey])).
Proof.
  intros Hm Hkey Hne HK HL HG Hres HS. unfold Middleware.
  rewrite Hm, Hkey, (eqb_empty_false key Hne), HK. cbn [negb].
  unfold onStore, emit. cbn [store app log]. rewrite HL. cbn [store app log].
  rewrite HG. cbn [store app log].
  unfold captured in HS.
  assert (forall X (hit : CachedResponse -> X) (miss : X),
    match res with (Some cached, None) => hit cached | _ => miss end = miss) as ->.
  { intros X hit miss. destruct res as [[c|] [e|]]; try done. by destruct (Hres c). }
  unfold ServeHTTP. cbn [store app log].
  destruct (next r' (app σ)) as [ops a'] eqn:En. cbn [fst snd] in *.
  cbn [store app log]. rewrite HS. cbn [store app log]. rewrite recorder_apply_ops. cbn [ResponseWriter].
  unfold captured. rewrite En. cbn [fst]. by rewrite <- !app_assoc.
Qed.

(** C9.  When [Get], after the lock is taken, returns an error, whatever
    the error and whatever comes with it, the request is a cache miss: the
    wrapped handler is invoked, the captured response is handed to [Set]
    under the fingerprint with the configured TTL, the lock is released,
    and the caller's writer holds exactly what the handler wrote. *)
Theorem get_error_is_cache_miss {W} `{http.ResponseWriter W}
    (opts : list Option) (next : http.Handler A) (now : Z) (w : W)
    (r r' : http.Request) (σ : World S A) (key fullKey : string)
    (s1 s2 s3 : S) (unlock : S -> S)
    (cached : option CachedResponse) (err : error) (seterr : option error) :
  isIdempotentMethod (http.Method r) = true ->
  http.Header_Get (HeaderName (newConfig opts)) (http.Header_ r) = key ->
  key <> EmptyString ->
  KeyFunc_ (newConfig opts) r key = (r', inl fullKey) ->
  Store_Lock fullKey now (store σ) = (s1, inl unlock) ->
  Store_Get fullKey now s1 = (s2, (cached, Some err)) ->
  Store_Set fullKey (captured next r' (app σ) w now) (TTL (newConfig opts)) now s2
  = (s3, seterr) ->
  Middleware opts next now w r σ
  = (http.apply_ops (next r' (app σ)).1 w,
     mkWorld (unlock s3) (next r' (app σ)).2
             (log σ ++ [EvKeyFunc key; EvLock fullKey; EvGet fullKey; EvServe r';
                        EvSet fullKey (captured next r' (app σ) w now)
                              (TTL (newConfig opts));
                        EvUnlock fullKey])).
Proof.
  intros Hm Hkey Hne HK HL HG HS.
  apply (Middleware_miss opts next now w r r' σ key fullKey s1 s2 s3 unlock
           (cached, Some err) seterr); try done.
Qed.

End Paths.

Lemma Middleware_pass_through_witness :
  Middleware [] charge 0 http.newResponse
             (http.mkRequest "GET" "/api/payment" {["Idempotency-Key" := ["pay-1"]]}
                             (http.mkBody EmptyString None))
             (mkWorld NewMemoryStore 0 [])
  = (http.apply_ops
       [http.OpHeaderSet "Content-Type" "text/plain"; http.OpWriteHeader 200;
        http.OpWrite "charged "] http.newResponse,
     mkWorld NewMemoryStore 1
       [EvServe (http.mkRequest "GET" "/api/payment" {["Idempotency-Key" := ["pay-1"]]}
                                (http.mkBody EmptyString None))]).
Proof.
  apply (Middleware_pass_through (S := MemoryStore) [] charge 0 http.newResponse
           (http.mkRequest "GET" "/api/payment" {["Idempotency-Key" := ["pay-1"]]}
                           (http.mkBody EmptyString None))
           (mkWorld NewMemoryStore 0 [])).
  left. reflexivity.
Defined.

Lemma Middleware_aborts_before_handler_witness :
  let out := Middleware [] charge 0 http.newResponse (truncated "/api/payment" "pay-1" "amou")
                        (mkWorld NewMemoryStore 0 []) in
  (http.received out.1).1.1 = 400%Z
  /\ out.2 = mkWorld NewMemoryStore 0 [EvKeyFunc "pay-1"].
Proof.
  intros out.
  destruct (Middleware_aborts_before_handler (S := MemoryStore) [] charge 0 http.newResponse
              (truncated "/api/payment" "pay-1" "amou") (mkWorld NewMemoryStore 0 []) "pay-1")
    as [Hfp _]; [reflexivity|reflexivity|discriminate|reflexivity|].
  exact (Hfp _ _ eq_refl).
Defined.

Lemma get_error_is_cache_miss_witness :
  let out := Middleware [] charge 0 http.newResponse payment
                        (mkWorld (mkUnreadable NewMemoryStore) 0 []) in
  out.1 = http.apply_ops (charge payment 0).1 http.newResponse
  /\ invocations (log out.2) = 1
  /\ app out.2 = 1.
Proof.
  intros out. subst out.
  erewrite (get_error_is_cache_miss (S := Unreadable) [] charge 0 http.newResponse
              payment payment (mkWorld (mkUnreadable NewMemoryStore) 0 []) "pay-1"
              (fingerprintOf payment "pay-1") _ _ _ _ None io_timeout None);
    [by split|reflexivity|reflexivity|discriminate|by vm_compute|by vm_compute..].
Defined.

(** ** Replaying a stored response *)





(** ** Calls that panic *)

Lemma perform_Returned {W} `{http.ResponseWriter W} `{http.WriterPanics W}
    (ops : list http.WriterOp) : forall w : W,
  (http.perform ops w).2 = http.Returned -> (http.perform ops w).1 = http.apply_ops ops w.
Proof.
  unfold http.apply_ops.
  induction ops as [|op ops IH]; intros w Hr; [done|].
  destruct op; cbn [http.perform foldl] in *; try by apply IH.
  destruct (http.WriteHeader_panics code w); [done|]. by apply IH.
Qed.

(** The recorder panics where the writer it wraps does, and what it has
    passed on by then is what the writer would have got without it. *)
Lemma perform_recorder {W} `{http.ResponseWriter W} `{http.WriterPanics W}
    (ops : list http.WriterOp) : forall rec : responseRecorder W,
  (http.perform ops rec).2 = (http.perform ops (ResponseWriter rec)).2
  /\ ResponseWriter (http.perform ops rec).1 = (http.perform ops (ResponseWriter rec)).1.
Proof.
  induction ops as [|op ops IH]; intros rec; [done|].
  destruct op; cbn [http.perform]; try apply IH.
  cbn [http.WriteHeader_panics recorder_panics].
  destruct (http.WriteHeader_panics code (ResponseWriter rec)); [done|]. apply IH.
Qed.

(** On the server's writer, wrapped or not, the writes of a handler whose
    status codes are status codes do not panic. *)
Lemma perform_validCodes (ops : list http.WriterOp) : forall w : http.response,
  validCodes ops = true -> (http.perform ops w).2 = http.Returned.
Proof.
  induction ops as [|op ops IH]; intros w Hv; [done|].
  cbn [validCodes forallb] in Hv. apply andb_prop in Hv as [Hop Hv].
  destruct op; cbn [http.perform]; try by apply IH.
  cbn [http.WriteHeader_panics http.response_panics]. rewrite Hop.
  destruct (http.wroteHeader w); by apply IH.
Qed.

Lemma writeCachedResponse_panicking_valid (w : http.response) (cached : CachedResponse) :
  http.checkWriteHeaderCode (StatusCode cached) = true ->
  writeCachedResponse_panicking w cached = (writeCachedResponse w cached, http.Returned).
Proof.
  intros Hc. unfold writeCachedResponse_panicking, writeCachedResponse,
    writeCachedResponse_ranged.
  cbn [http.WriteHeader_panics http.response_panics]. rewrite Hc.
  by destruct (http.wroteHeader _).
Qed.

Lemma writeCachedResponse_panicking_Returned {W} `{http.ResponseWriter W}
    `{http.WriterPanics W} (w : W) (cached : CachedResponse) :
  (writeCachedResponse_panicking w cached).2 = http.Returned ->
  (writeCachedResponse_panicking w cached).1 = writeCachedResponse w cached.
Proof.
  unfold writeCachedResponse_panicking, writeCachedResponse, writeCachedResponse_ranged.
  by destruct (http.WriteHeader_panics _ _).
Qed.

Section PanickingPaths.
Context {S : Type} `{Store S} {A : Type}
        {W : Type} `{http.ResponseWriter W} `{http.WriterPanics W}.

Lemma ServeHTTP_panicking_spec {V} `{http.ResponseWriter V} `{http.WriterPanics V}
    (next : http.PanickingHandler A) (w : V) (r : http.Request) (σ : World S A) :
  ServeHTTP_panicking next w r σ
  = ((http.perform (next r (app σ)).1.1 w).1,
     mkWorld (store σ) (next r (app σ)).1.2 (log σ ++ [EvServe r]),
     match (http.perform (next r (app σ)).1.1 w).2 with
     | http.Panicked => http.Panicked
     | http.Returned => (next r (app σ)).2
     end).
Proof.
  unfold ServeHTTP_panicking. destruct (next r (app σ)) as [[ops a] fin]. cbn [fst snd].
  by destruct (http.perform ops w).
Qed.

Lemma ServeHTTP_panicking_returns {V} `{http.ResponseWriter V} `{http.WriterPanics V}
    (next : http.PanickingHandler A) (w : V) (r : http.Request) (σ : World S A) :
  (ServeHTTP_panicking next w r σ).2 = http.Returned <-> returns next r (app σ) w.
Proof.
  rewrite ServeHTTP_panicking_spec. cbn [snd]. unfold returns.
  destruct (http.perform _ w).2; [|by split; [|intros []]].
  by split; [|intros []].
Qed.

(** The request that skips the idempotency path. *)
Lemma Middleware_panicking_pass_through
    (opts : list Option) (next : http.PanickingHandler A) (now : Z) (w : W)
    (r : http.Request) (σ : World S A) :
  isIdempotentMethod (http.Method r) = false
  \/ http.Header_Get (HeaderName (newConfig opts)) (http.Header_ r) = EmptyString ->
  Middleware_panicking opts next now w r σ = ServeHTTP_panicking next w r σ.
Proof.
  intros Hby. unfold Middleware_panicking.
  destruct (isIdempotentMethod (http.Method r)) eqn:Em; cbn [negb]; [|done].
  destruct Hby as [?| ->]; done.
Qed.

Lemma Middleware_panicking_no_key
    (opts : list Option) (next : http.PanickingHandler A) (now : Z) (w : W)
    (r r' : http.Request) (σ : World S A) (key : string) (err : error) :
  isIdempotentMethod (http.Method r) = true ->
  http.Header_Get (HeaderName (newConfig opts)) (http.Header_ r) = key ->
  key <> EmptyString ->
  KeyFunc_ (newConfig opts) r key = (r', inr err) ->
  Middleware_panicking opts next now w r σ
  = (http.Error w "Invalid idempotency key" http.StatusBadRequest,
     mkWorld (store σ) (app σ) (log σ ++ [EvKeyFunc key]), http.Returned).
Proof.
  intros Hm Hkey Hne HK. unfold Middleware_panicking.
  by rewrite Hm, Hkey, (eqb_empty_false key Hne), HK.
Qed.

Lemma Middleware_panicking_no_lock
    (opts : list Option) (next : http.PanickingHandler A) (now : Z) (w : W)
    (r r' : http.Request) (σ : World S A) (key fullKey : string) (s1 : S) (err : error) :
  isIdempotentMethod (http.Method r) = true ->
  http.Header_Get (HeaderName (newConfig opts)) (http.Header_ r) = key ->
  key <> EmptyString ->
  KeyFunc_ (newConfig opts) r key = (r', inl fullKey) ->
  Store_Lock fullKey now (store σ) = (s1, inr err) ->
  Middleware_panicking opts next now w r σ
  = (http.Error w (if decide (err = ErrRequestInProgress)
                   then "Request already in progress" else "Internal server error")
                  (if decide (err = ErrRequestInProgress)
                   then http.StatusConflict else http.StatusInternalServerError),
     mkWorld s1 (app σ) (log σ ++ [EvKeyFunc key; EvLock fullKey]), http.Returned).
Proof.
  intros Hm Hkey Hne HK HL. unfold Middleware_panicking.
  rewrite Hm, Hkey, (eqb_empty_false key Hne), HK. cbn [negb].
  unfold onStore, emit. cbn [store app log]. rewrite HL. cbn [store app log].
  rewrite <- app_assoc. by case_decide.
Qed.

(** The two paths once the lock is taken. *)
Lemma Middleware_panicking_hit
    (opts : list Option) (next : http.PanickingHandler A) (now : Z) (w : W)
    (r r' : http.Request) (σ : World S A) (key fullKey : string)
    (s1 s2 : S) (unlock : S -> S) (cached : CachedResponse) :
  isIdempotentMethod (http.Method r) = true ->
  http.Header_Get (HeaderName (newConfig opts)) (http.Header_ r) = key ->
  key <> EmptyString ->
  KeyFunc_ (newConfig opts) r key = (r', inl fullKey) ->
  Store_Lock fullKey now (store σ) = (s1, inl unlock) ->
  Store_Get fullKey now s1 = (s2, (Some cached, None)) ->
  Middleware_panicking opts next now w r σ
  = ((writeCachedResponse_panicking w cached).1,
     mkWorld (unlock s2) (app σ)
             (log σ ++ [EvKeyFunc key; EvLock fullKey; EvGet fullKey; EvUnlock fullKey]),
     (writeCachedResponse_panicking w cached).2).
Proof.
  intros Hm Hkey Hne HK HL HG. unfold Middleware_panicking.
  rewrite Hm, Hkey, (eqb_empty_false key Hne), HK. cbn [negb].
  unfold onStore, emit. cbn [store app log]. rewrite HL. cbn [store app log].
  rewrite HG. cbn [store app log]. rewrite <- !app_assoc.
  by destruct (writeCachedResponse_panicking w cached).
Qed.

(** A miss whose handler call returns: the rest of the middleware runs. *)
Lemma Middleware_panicking_miss
    (opts : list Option) (next : http.PanickingHandler A) (now : Z) (w : W)
    (r r' : http.Request) (σ : World S A) (key fullKey : string)
    (s1 s2 s3 : S) (unlock : S -> S) (res : option CachedResponse * option error)
    (err : option error) :
  isIdempotentMethod (http.Method r) = true ->
  http.Header_Get (HeaderName (newConfig opts)) (http.Header_ r) = key ->
  key <> EmptyString ->
  KeyFunc_ (newConfig opts) r key = (r', inl fullKey) ->
  Store_Lock fullKey now (store σ) = (s1, inl unlock) ->
  Store_Get fullKey now s1 = (s2, res) ->
  (forall cached, res <> (Some cached, None)) ->
  returns next r' (app σ) w ->
  Store_Set fullKey (captured (withoutPanics next) r' (app σ) w now)
            (TTL (newConfig opts)) now s2 = (s3, err) ->
  Middleware_panicking opts next now w r σ
  = (http.apply_ops (next r' (app σ)).1.1 w,
     mkWorld (unlock s3) (next r' (app σ)).1.2
             (log σ ++ [EvKeyFunc key; EvLock fullKey; EvGet fullKey; EvServe r';
                        EvSet fullKey (captured (withoutPanics next) r' (app σ) w now)
                              (TTL (newConfig opts));
                        EvUnlock fullKey]),
     http.Returned).
Proof.
  intros Hm Hkey Hne HK HL HG Hres [Hw Hfin] HS. unfold Middleware_panicking.
  rewrite Hm, Hkey, (eqb_empty_false key Hne), HK. cbn [negb].
  unfold onStore, emit. cbn [store app log]. rewrite HL. cbn [store app log].
  rewrite HG. cbn [store app log].
  assert (forall X (hit : CachedResponse -> X) (miss : X),
    match res with (Some cached, None) => hit cached | _ => miss end = miss) as ->.
  { intros X hit miss. destruct res as [[c|] [e|]]; try done. by destruct (Hres c). }
  rewrite ServeHTTP_panicking_spec. cbn [store app log].
  set (rec0 := mkRecorder w http.StatusOK EmptyString).
  destruct (perform_recorder (next r' (app σ)).1.1 rec0) as [Ho Hrw].
  cbn [ResponseWriter rec0] in Ho, Hrw.
  rewrite Ho, Hw, Hfin.
  assert ((http.perform (next r' (app σ)).1.1 rec0).1
          = http.apply_ops (next r' (app σ)).1.1 rec0) as Hrec
    by (apply perform_Returned; by rewrite Ho).
  rewrite Hrec. unfold captured, withoutPanics in HS. cbn [fst] in HS.
  cbn [store app log]. subst rec0.
  match goal with
  | |- context [Store_Set ?a ?b ?c ?d ?e] =>
      assert (Store_Set a b c d e = (s3, err)) as -> by exact HS
  end.
  cbn [store app log].
  rewrite recorder_apply_ops. cbn [ResponseWriter].
  unfold captured, withoutPanics. cbn [fst]. by rewrite <- !app_assoc.
Qed.

(** A miss whose handler call panics: the panic unwinds through the
    middleware, which neither stores anything nor calls [unlock]. *)
Lemma Middleware_panicking_miss_panic
    (opts : list Option) (next : http.PanickingHandler A) (now : Z) (w : W)
    (r r' : http.Request) (σ : World S A) (key fullKey : string)
    (s1 s2 : S) (unlock : S -> S) (res : option CachedResponse * option error) :
  isIdempotentMethod (http.Method r) = true ->
  http.Header_Get (HeaderName (newConfig opts)) (http.Header_ r) = key ->
  key <> EmptyString ->
  KeyFunc_ (newConfig opts) r key = (r', inl fullKey) ->
  Store_Lock fullKey now (store σ) = (s1, inl unlock) ->
  Store_Get fullKey now s1 = (s2, res) ->
  (forall cached, res <> (Some cached, None)) ->
  ~ returns next r' (app σ) w ->
  Middleware_panicking opts next now w r σ
  = ((http.perform (next r' (app σ)).1.1 w).1,
     mkWorld s2 (next r' (app σ)).1.2
             (log σ ++ [EvKeyFunc key; EvLock fullKey; EvGet fullKey; EvServe r']),
     http.Panicked).
Proof.
  intros Hm Hkey Hne HK HL HG Hres Hno. unfold Middleware_panicking.
  rewrite Hm, Hkey, (eqb_empty_false key Hne), HK. cbn [negb].
  unfold onStore, emit. cbn [store app log]. rewrite HL. cbn [store app log].
  rewrite HG. cbn [store app log].
  assert (forall X (hit : CachedResponse -> X) (miss : X),
    match res with (Some cached, None) => hit cached | _ => miss end = miss) as ->.
  { intros X hit miss. destruct res as [[c|] [e|]]; try done. by destruct (Hres c). }
  rewrite ServeHTTP_panicking_spec. cbn [store app log].
  set (rec0 := mkRecorder w http.StatusOK EmptyString).
  destruct (perform_recorder (next r' (app σ)).1.1 rec0) as [Ho Hrw].
  cbn [ResponseWriter rec0] in Ho, Hrw.
  rewrite Ho. unfold returns in Hno.
  destruct (http.perform (next r' (app σ)).1.1 w).2 eqn:Ew.
  - destruct (next r' (app σ)).2 eqn:Ef; [by destruct Hno|].
    by rewrite Hrw, <- !app_assoc.
  - by rewrite Hrw, <- !app_assoc.
Qed.

(** A call of the middleware that returns has done what [Middleware] says
    for the handler without its panics. *)
Lemma Middleware_panicking_Returned
    (opts : list Option) (next : http.PanickingHandler A) (now : Z) (w : W)
    (r : http.Request) (σ : World S A) :
  (Middleware_panicking opts next now w r σ).2 = http.Returned ->
  (Middleware_panicking opts next now w r σ).1
  = Middleware opts (withoutPanics next) now w r σ.
Proof.
  unfold Middleware_panicking, Middleware.
  assert (forall (w0 : W) r0 (σ0 : World S A),
    (ServeHTTP_panicking next w0 r0 σ0).2 = http.Returned ->
    (ServeHTTP_panicking next w0 r0 σ0).1 = ServeHTTP (withoutPanics next) w0 r0 σ0) as Hserve.
  { intros w0 r0 σ0. rewrite ServeHTTP_panicking_spec. cbn [fst snd].
    unfold ServeHTTP, withoutPanics.
    destruct (next r0 (app σ0)) as [[ops a] fin]. cbn [fst snd].
    destruct (http.perform ops w0).2 eqn:Ew; [|done]. intros _.
    by rewrite perform_Returned. }
  destruct (negb (isIdempotentMethod (http.Method r))); [apply Hserve|].
  destruct (String.eqb _ EmptyString); [apply Hserve|].
  destruct (KeyFunc_ (newConfig opts) r _) as [r' [fullKey|e]]; [|done].
  unfold onStore, emit. cbn [store app log].
  destruct (Store_Lock fullKey now (store σ)) as [s1 [unlock|e]]; [|by case_decide].
  cbn [store app log].
  destruct (Store_Get fullKey now s1) as [s2 res]. cbn [store app log].
  assert ((exists cached, res = (Some cached, None))
          \/ (forall cached, res <> (Some cached, None))) as [[cached ->]|Hmiss].
  { destruct res as [[c|] [e|]]; eauto. }
  - pose proof (writeCachedResponse_panicking_Returned w cached) as Hc.
    destruct (writeCachedResponse_panicking w cached) as [w' o]. cbn [fst snd] in *.
    intros ->. by rewrite Hc.
  - assert (forall X (hit : CachedResponse -> X) (miss : X),
      match res with (Some cached, None) => hit cached | _ => miss end = miss) as Hres.
    { intros X hit miss. destruct res as [[c|] [e|]]; try done. by destruct (Hmiss c). }
    rewrite !Hres.
    set (σ1 := mkWorld s2 (app σ) _).
    set (rec0 := mkRecorder w http.StatusOK EmptyString).
    pose proof (ServeHTTP_panicking_spec next rec0 r' σ1) as Hsp.
    unfold ServeHTTP, withoutPanics.
    destruct (ServeHTTP_panicking next rec0 r' σ1) as [[rec σ2] o].
    injection Hsp as -> -> ->.
    destruct (http.perform (next r' (app σ)).1.1 rec0).2 eqn:Ew; [|done].
    destruct (next r' (app σ)).2 eqn:Ef; [|done]. intros _.
    rewrite (perform_Returned _ rec0 Ew). subst σ1. cbn [fst store app log].
    destruct (next r' (app σ)) as [[ops a] fin]. cbn [fst snd store app log].
    by destruct (Store_Set _ _ _ _ _).
Qed.

End PanickingPaths.

(** ** The lock and the panics *)


(** The same when the panic comes from the writer: [WriteHeader(0)]. *)
Example invalid_status_panics :
  let out := Middleware_panicking [] badStatus 0 http.newResponse payment
                                  (mkWorld NewMemoryStore 0 []) in
  out.2 = http.Panicked
  /\ releases (log out.1.2) = 0
  /\ isLocked (fingerprintOf payment "pay-1") (store out.1.2) = true
  /\ http.wroteHeader out.1.1 = false.
Proof. by vm_compute. Qed.



(** ** The in-memory store *)

(** C7.  [Get] of the in-memory store returns [ErrNotFound] exactly when
    the key has no entry or its entry's expiry instant has passed; an entry
    that has not expired is returned; [Get] changes nothing; and a sweep of
    [cleanup] at any earlier tick does not change what [Get] returns. *)
Theorem MemoryStore_Get_never_returns_expired (s : MemoryStore) (key : string) (now : Z) :
  ((MemoryStore_Get key now s).2 = (None, Some ErrNotFound)
   <-> data s !! key = None
       \/ exists e, data s !! key = Some e /\ (expiresAt e < now)%Z)
  /\ (forall e, data s !! key = Some e -> (now <= expiresAt e)%Z ->
        (MemoryStore_Get key now s).2 = (Some (response e), None))
  /\ (MemoryStore_Get key now s).1 = s
  /\ (forall tick, (tick <= now)%Z ->
        (MemoryStore_Get key now (cleanup tick s)).2 = (MemoryStore_Get key now s).2).
Proof.
  unfold MemoryStore_Get, After.
  repeat split.
  - destruct (data s !! key) as [e|] eqn:E; [|by left].
    destruct (Z.ltb_spec (expiresAt e) now); [|done].
    intros _. right. by exists e.
  - intros [->|(e & -> & Hlt)]; [done|].
    by destruct (Z.ltb_spec (expiresAt e) now); [|lia].
  - intros e -> Hle. by destruct (Z.ltb_spec (expiresAt e) now); [lia|].
  - destruct (data s !! key) as [e|]; [|done]. by destruct (_ <? _)%Z.
  - intros tick Htick. cbn [data cleanup].
    destruct (data s !! key) as [e|] eqn:E.
    + destruct (Z.ltb_spec (expiresAt e) tick) as [Hexp|Hlive].
      * rewrite (proj2 (map_lookup_filter_None _ _ _)).
        -- by destruct (Z.ltb_spec (expiresAt e) now); [|lia].
        -- right. intros e' He'. rewrite E in He'. injection He' as <-.
           unfold After. cbn. intros HP. apply Z.ltb_ge in HP. lia.
      * rewrite (proj2 (map_lookup_filter_Some _ _ _ e)); [by destruct (_ <? _)%Z|].
        split; [done|]. unfold After. cbn. apply Z.ltb_ge. lia.
    + rewrite (proj2 (map_lookup_filter_None _ _ _)); [done|]. by left.
Qed.

Lemma MemoryStore_Get_data key now s s' :
  data s' = data s -> MemoryStore_Get key now s' = (s', (MemoryStore_Get key now s).2).
Proof.
  intros Hd. unfold MemoryStore_Get. rewrite Hd.
  destruct (data s !! key) as [e|]; [|done]. by destruct (After now (expiresAt e)).
Qed.

Lemma getMutex_setMutex k k' mu s :
  getMutex k (setMutex k' mu s) = if decide (k' = k) then mu else getMutex k s.
Proof. unfold getMutex, setMutex. cbn. rewrite lookup_insert. by case_decide. Qed.

Lemma mutexOf_fst key s : (mutexOf key s).1 = getMutex key s.
Proof. unfold mutexOf, getMutex. by destruct (locks s !! key). Qed.

Lemma getMutex_mutexOf k k' s : getMutex k (mutexOf k' s).2 = getMutex k s.
Proof.
  unfold mutexOf. destruct (locks s !! k') as [mu|] eqn:E; [done|].
  cbn [snd]. rewrite getMutex_setMutex. case_decide; [|done].
  subst. unfold getMutex. by rewrite E.
Qed.


Lemma MemoryStore_Lock_free (key : string) (now : Z) (s : MemoryStore) :
  isLocked key s = false ->
  MemoryStore_Lock key now s = (lockMutex key (mutexOf key s).2, inl (unlockMutex key)).
Proof.
  unfold MemoryStore_Lock, isLocked. rewrite <- mutexOf_fst.
  destruct (mutexOf key s) as [mu s']. cbn [fst snd]. by intros ->.
Qed.

Lemma MemoryStore_Lock_busy (key : string) (now : Z) (s : MemoryStore) :
  isLocked key s = true ->
  MemoryStore_Lock key now s = (parkGoroutine key (mutexOf key s).2, inr ErrRequestInProgress).
Proof.
  unfold MemoryStore_Lock, isLocked. rewrite <- mutexOf_fst.
  destruct (mutexOf key s) as [mu s']. cbn [fst snd]. by intros ->.
Qed.

Lemma data_lockMutex key s : data (lockMutex key s) = data s.
Proof. done. Qed.

Lemma data_unlockMutex key s : data (unlockMutex key s) = data s.
Proof. done. Qed.

Lemma data_mutexOf key s : data (mutexOf key s).2 = data s.
Proof. unfold mutexOf. by destruct (locks s !! key). Qed.

Lemma isLocked_unlockMutex key s : isLocked key (unlockMutex key s) = false.
Proof. unfold isLocked, unlockMutex. by rewrite getMutex_setMutex, decide_True. Qed.

(** ** The Redis store *)

(** C8.  [Lock] of the Redis store sends exactly one command, a
    set-if-absent of the value 1 on the key ["lock:" + key] with a time to
    live of 30 seconds.  With the server in reach: if that key exists the
    result is [ErrRequestInProgress] and the keyspace is unchanged; if it does
    not, the key is set to expire 30 seconds later and the result is an
    [unlock] which, when called, sends one [DEL] that removes that key. *)
Theorem RedisStore_Lock_is_one_SetNX (s : RedisStore) (key : string) (now : Z) :
  let lockKey := "lock:" +:+ key in
  let out := RedisStore_Lock key now s in
  redis.sent out.1 = redis.sent s ++ [redis.CmdSetNX lockKey "1" 30000000000]
  /\ (redis.reachable s = true ->
      (redis.exists_at now lockKey s = true ->
         out.2 = inr ErrRequestInProgress /\ redis.keyspace out.1 = redis.keyspace s)
      /\ (redis.exists_at now lockKey s = false ->
          redis.keyspace out.1 = <[lockKey := ("1", (now + 30000000000)%Z)]> (redis.keyspace s)
          /\ exists unlock,
               out.2 = inl unlock
               /\ forall s', redis.reachable s' = true ->
                    redis.keyspace (unlock s') = delete lockKey (redis.keyspace s')
                    /\ redis.sent (unlock s') = redis.sent s' ++ [redis.CmdDel lockKey])).
Proof.
  intros lockKey out. subst out. unfold RedisStore_Lock, redis.SetNX.
  fold lockKey. cbn [redis.reachable redis.keyspace redis.sent].
  change (30 * Second)%Z with 30000000000%Z.
  assert (forall c, redis.exists_at now lockKey
            (redis.mkClient (redis.keyspace s) (redis.reachable s) c)
          = redis.exists_at now lockKey s) as -> by done.
  destruct (redis.reachable s) eqn:Er; cbn [negb fst snd redis.sent]; [|by split].
  destruct (redis.exists_at now lockKey s) eqn:Ee; cbn [fst snd redis.sent redis.keyspace].
  - split; [done|]. intros _. by split.
  - split; [done|]. intros _. split; [done|]. intros _. split; [done|].
    eexists. split; [done|]. intros s' Hs'. unfold redis.Del.
    cbn [redis.reachable]. rewrite Hs'. by cbn.
Qed.

(** ** The fingerprint *)

Lemma defaultKeyFunc_ok (r : http.Request) (key : string) :
  http.failure (http.Body r) = None ->
  defaultKeyFunc r key
  = (r, inl (fingerprintOf r key)).
Proof.
  intros Hf. destruct r as [m p h [c f]]. cbn in Hf. subst f.
  unfold defaultKeyFunc, fingerprintOf, http.ReadAll, http.NopCloser, sha256.Write,
    sha256.New.
  cbn [http.Body http.Method http.Path http.Header_ http.content http.failure].
  change (EmptyString +:+ m) with m. by rewrite !append_assoc.
Qed.

Lemma defaultKeyFunc_fingerprint (r : http.Request) (key : string) :
  http.failure (http.Body r) = None ->
  (defaultKeyFunc r key).2
  = inl (fingerprintOf r key).
Proof.
  intros Hf. unfold defaultKeyFunc, http.ReadAll. rewrite Hf.
  cbn [snd http.Method http.Path]. unfold fingerprintOf, sha256.Write, sha256.New.
  change (EmptyString +:+ http.Method r) with (http.Method r).
  by rewrite !append_assoc.
Qed.

(** C2, at a failing input.  [POST /a] with the body [b] and [POST /ab] with
    an empty body, under the same idempotency key, differ in path and in
    body, yet [defaultKeyFunc] gives both the same fingerprint: it hashes
    method, path and body as one concatenation.  Through the middleware the
    second request is answered from the cache of the first and the handler
    runs once for the two. *)
Theorem defaultKeyFunc_collision :
  let r1 := post "/a" "k" "b" in
  let r2 := post "/ab" "k" EmptyString in
  http.Path r1 <> http.Path r2
  /\ http.content (http.Body r1) <> http.content (http.Body r2)
  /\ (defaultKeyFunc r1 "k").2 = (defaultKeyFunc r2 "k").2
  /\ let out1 := Middleware [] charge 0 http.newResponse r1 (mkWorld NewMemoryStore 0 []) in
     let out2 := Middleware [] charge 1 http.newResponse r2
                            (mkWorld (store out1.2) (app out1.2) []) in
     invocations (log out1.2 ++ log out2.2) = 1
     /\ (http.received out2.1).2 = "charged b"
     /\ http.Header_Get "X-Idempotency-Cached" (http.received out2.1).1.2 = "true".
Proof.
  intros r1 r2. split; [done|]. split; [done|]. split.
  - by rewrite !defaultKeyFunc_fingerprint.
  - by vm_compute.
Qed.

(** ** Replay *)

(** The scenario of the tests: the second identical request is answered from
    the cache, a different body runs the handler again. *)
Example scenario_replay :
  let out1 := Middleware [] charge 0 http.newResponse payment (mkWorld NewMemoryStore 0 []) in
  let out2 := Middleware [] charge 1 http.newResponse payment
                         (mkWorld (store out1.2) (app out1.2) []) in
  let out3 := Middleware [] charge 2 http.newResponse (post "/api/payment" "pay-1" "amount=200")
                         (mkWorld (store out2.2) (app out2.2) []) in
  (http.received out1.1).1.1 = 200%Z
  /\ (http.received out1.1).2 = "charged amount=100"
  /\ http.Header_Get "X-Idempotency-Cached" (http.received out1.1).1.2 = EmptyString
  /\ (http.received out2.1).2 = "charged amount=100"
  /\ http.Header_Get "X-Idempotency-Cached" (http.received out2.1).1.2 = "true"
  /\ app out2.2 = 1
  /\ (http.received out3.1).2 = "charged amount=200"
  /\ app out3.2 = 2.
Proof. by vm_compute. Qed.


(** Why the amended claim asks for what it asks.  A method that is not
    POST, PATCH or PUT is served every time; so is a request that comes
    after the entry has expired. *)
Example get_is_served_every_time :
  let r := http.mkRequest "GET" "/api/payment" {["Idempotency-Key" := ["pay-1"]]}
                          (http.mkBody EmptyString None) in
  let out1 := Middleware [] charge 0 http.newResponse r (mkWorld NewMemoryStore 0 []) in
  let out2 := Middleware [] charge 1 http.newResponse r
                         (mkWorld (store out1.2) (app out1.2) []) in
  invocations (log out1.2 ++ log out2.2) = 2.
Proof. by vm_compute. Qed.

Example expired_entry_is_served_again :
  let out1 := Middleware [] charge 0 http.newResponse payment (mkWorld NewMemoryStore 0 []) in
  let out2 := Middleware [] charge (DefaultTTL + 1) http.newResponse payment
                         (mkWorld (store out1.2) (app out1.2) []) in
  invocations (log out1.2 ++ log out2.2) = 2
  /\ http.Header_Get "X-Idempotency-Cached" (http.received out2.1).1.2 = EmptyString.
Proof. by vm_compute. Qed.

(** The recorder keeps the last status a handler writes and the header map
    as the handler leaves it, the client gets the first status and the
    headers as they were then: for a handler that writes the status twice,
    or a header after the status, the replay differs from the first
    response. *)
Example recorder_keeps_last_status :
  let twice : http.Handler nat := fun r n =>
    ([http.OpWriteHeader 201; http.OpWriteHeader 500; http.OpHeaderSet "X-Late" "1"],
     Datatypes.S n) in
  let out1 := Middleware [] twice 0 http.newResponse payment (mkWorld NewMemoryStore 0 []) in
  let out2 := Middleware [] twice 1 http.newResponse payment
                         (mkWorld (store out1.2) (app out1.2) []) in
  (http.received out1.1).1.1 = 201%Z
  /\ (http.received out2.1).1.1 = 500%Z
  /\ http.Header_Get "X-Late" (http.received out1.1).1.2 = EmptyString
  /\ http.Header_Get "X-Late" (http.received out2.1).1.2 = "1".
Proof. by vm_compute. Qed.

(** A header that the writers of both requests carry when the middleware
    gets them comes back twice in the replay: the stored headers are those
    of the whole header map, and they are added to the writer's. *)
Example preset_header_is_replayed_twice :
  let w := http.mkResponse {["X-Request-Id" := ["1"]]} false 0 ∅ EmptyString in
  let out1 := Middleware [] charge 0 w payment (mkWorld NewMemoryStore 0 []) in
  let out2 := Middleware [] charge 1 w payment (mkWorld (store out1.2) (app out1.2) []) in
  (http.received out1.1).1.2 !! "X-Request-Id" = Some ["1"]
  /\ (http.received out2.1).1.2 !! "X-Request-Id" = Some ["1"; "1"].
Proof. by vm_compute. Qed.

(** A goroutine left blocked on a mutex that is free again takes it: the
    [Lock] of the next request cannot get it and times out. *)
Example blocked_goroutine_takes_the_free_mutex :
  exists g g',
    run [Call 1 "k"; Acquire 1; Return 1; Call 2 "k"; Timeout 2; Release 1] start = Some g
    /\ isLocked "k" (mem g) = false
    /\ parkedOn "k" (mem g) = 1
    /\ run [Orphan "k"; Call 3 "k"] g = Some g'
    /\ step (Acquire 3) g' = None
    /\ (returned 3 <$> step (Timeout 3) g') = Some (Some (inr ErrRequestInProgress)).
Proof. eexists _, _. split; [by vm_compute|]. by vm_compute. Qed.



(** ** The goroutines of [Lock] *)

(** The mutex operations, read through [isLocked] and [parkedOn]. *)
Lemma isLocked_mutexOf k k' s : isLocked k (mutexOf k' s).2 = isLocked k s.
Proof. unfold isLocked. by rewrite getMutex_mutexOf. Qed.

Lemma parkedOn_mutexOf k k' s : parkedOn k (mutexOf k' s).2 = parkedOn k s.
Proof. unfold parkedOn. by rewrite getMutex_mutexOf. Qed.

Lemma isLocked_lockMutex k k' s :
  isLocked k (lockMutex k' s) = if decide (k' = k) then true else isLocked k s.
Proof. unfold isLocked, lockMutex. rewrite getMutex_setMutex. by case_decide. Qed.

Lemma parkedOn_lockMutex k k' s : parkedOn k (lockMutex k' s) = parkedOn k s.
Proof.
  unfold parkedOn, lockMutex. rewrite getMutex_setMutex. case_decide; [by subst|done].
Qed.

Lemma isLocked_unlockMutex' k k' s :
  isLocked k (unlockMutex k' s) = if decide (k' = k) then false else isLocked k s.
Proof. unfold isLocked, unlockMutex. rewrite getMutex_setMutex. by case_decide. Qed.

Lemma parkedOn_unlockMutex k k' s : parkedOn k (unlockMutex k' s) = parkedOn k s.
Proof.
  unfold parkedOn, unlockMutex. rewrite getMutex_setMutex. case_decide; [by subst|done].
Qed.

Lemma isLocked_parkGoroutine k k' s : isLocked k (parkGoroutine k' s) = isLocked k s.
Proof.
  unfold isLocked, parkGoroutine. rewrite getMutex_setMutex. case_decide; [by subst|done].
Qed.

Lemma parkedOn_parkGoroutine k k' s :
  parkedOn k (parkGoroutine k' s)
  = if decide (k' = k) then Datatypes.S (parkedOn k s) else parkedOn k s.
Proof.
  unfold parkedOn, parkGoroutine. rewrite getMutex_setMutex. case_decide; [by subst|done].
Qed.

Lemma parkedAcquires_Some k' s s' :
  parkedAcquires k' s = Some s' ->
  isLocked k' s = false
  /\ forall k, isLocked k s' = (if decide (k' = k) then true else isLocked k s)
            /\ (k' <> k -> parkedOn k s' = parkedOn k s).
Proof.
  unfold parkedAcquires, isLocked, parkedOn.
  destruct (getMutex k' s) as [[] [|n]] eqn:E; try done.
  intros [= <-]. split; [done|]. intros k. rewrite getMutex_setMutex.
  case_decide; [by subst|done].
Qed.


Lemma consistent_start : consistent start.
Proof.
  intros key. split; [intros _ c cs Hc|intros c1 c2 cs1 cs2 Hc];
    cbn in Hc; by rewrite lookup_empty in Hc.
Qed.

Ltac lookup_cases :=
  repeat match goal with
  | H : <[_ := _]> _ !! _ = Some _ |- _ => rewrite lookup_insert in H; case_decide; simplify_eq
  end.

Lemma consistent_step e g g' : consistent g -> step e g = Some g' -> consistent g'.
Proof.
  intros Hc Hs key. destruct (Hc key) as [Hfree Huniq].
  destruct e as [c k|c|c|c|c|k]; cbn [step] in Hs.
  - destruct (calls g !! c) eqn:Ec; [done|]. injection Hs as <-.
    unfold noOwner. cbn [mem calls setCall]. rewrite isLocked_mutexOf. split.
    + intros Hl c' cs' Hc'. lookup_cases; [done|]. by eapply Hfree.
    + intros c1 c2 cs1 cs2 H1 H2 O1 O2. lookup_cases; try done. by eapply Huniq.
  - destruct (calls g !! c) as [[k []]|] eqn:Ec; try done.
    destruct (isLocked k (mem g)) eqn:El; [done|]. injection Hs as <-.
    unfold noOwner. cbn [mem calls setCall]. rewrite isLocked_lockMutex. split.
    + case_decide; [done|]. intros Hl c' cs' Hc'. lookup_cases. by eapply Hfree.
    + intros c1 c2 cs1 cs2 H1 H2 O1 O2. lookup_cases; try done; try by eapply Huniq.
      all: match goal with
           | Hx : calls _ !! ?c1 = Some (_, ?cs1), O : owns ?cs1 = true |- _ =>
               by rewrite (Hfree El c1 cs1 Hx) in O
           end.
  - destruct (calls g !! c) as [[k []]|] eqn:Ec; try done. injection Hs as <-.
    unfold noOwner. cbn [mem calls setCall]. split.
    + intros Hl c' cs' Hc'. lookup_cases; [|by eapply Hfree].
      by pose proof (Hfree Hl _ _ Ec).
    + intros c1 c2 cs1 cs2 H1 H2 O1 O2. lookup_cases; try done; try by eapply Huniq.
      all: match goal with
           | Hx : calls _ !! ?c1 = Some (_, ?cs1), O : owns ?cs1 = true |- _ =>
               by destruct (Huniq c1 c cs1 Signalled Hx Ec O eq_refl)
           end.
  - destruct (calls g !! c) as [[k []]|] eqn:Ec; try done; injection Hs as <-;
      unfold noOwner; cbn [mem calls setCall]; rewrite ?isLocked_parkGoroutine; (split;
      [ intros Hl c' cs' Hc'; lookup_cases; try done; by eapply Hfree
      | intros c1 c2 cs1 cs2 H1 H2 O1 O2; lookup_cases; try done; by eapply Huniq ]).
  - destruct (calls g !! c) as [[k []]|] eqn:Ec; try done. injection Hs as <-.
    unfold noOwner. cbn [mem calls setCall]. rewrite isLocked_unlockMutex'. split.
    + intros Hl c' cs' Hc'. lookup_cases; [done|].
      case_decide as Ek; [subst k|by eapply Hfree].
      destruct (owns cs') eqn:Eo; [|done].
      by destruct (Huniq c' c cs' Holding).
    + intros c1 c2 cs1 cs2 H1 H2 O1 O2. lookup_cases; try done. by eapply Huniq.
  - destruct (parkedAcquires k (mem g)) as [s|] eqn:Ep; [|done]. injection Hs as <-.
    apply parkedAcquires_Some in Ep as [Hf Hk]. destruct (Hk key) as [Hk' _].
    unfold noOwner. cbn [mem calls]. rewrite Hk'. split; [|done].
    case_decide; [done|]. apply Hfree.
Qed.

Lemma consistent_run es : forall g g', consistent g -> run es g = Some g' -> consistent g'.
Proof.
  induction es as [|e es IH]; intros g g' Hc Hr; cbn [run] in Hr.
  - by injection Hr as <-.
  - destruct (step e g) as [g1|] eqn:Es; [|done].
    eapply IH; [|done]. by eapply consistent_step.
Qed.











(** The sequential [Lock] is the call of the goroutine model that nobody
    interleaves with. *)
Lemma MemoryStore_Lock_run (c : nat) (key : string) (now : Z) (g : Goroutines) :
  calls g !! c = None ->
  match MemoryStore_Lock key now (mem g) with
  | (s, inl _) =>
      exists g', run [Call c key; Acquire c; Return c] g = Some g'
                 /\ mem g' = s /\ returned c g' = Some (inl tt)
  | (s, inr err) =>
      exists g', run [Call c key; Timeout c] g = Some g'
                 /\ mem g' = s /\ returned c g' = Some (inr err)
  end.
Proof.
  intros Hc. destruct (isLocked key (mem g)) eqn:El.
  - rewrite MemoryStore_Lock_busy by done. cbn [run step]. rewrite Hc.
    cbn [calls setCall]. rewrite lookup_insert_eq. eexists. split; [done|].
    split; [done|]. unfold returned. cbn [calls setCall]. by rewrite lookup_insert_eq.
  - rewrite MemoryStore_Lock_free by done. cbn [run step]. rewrite Hc.
    cbn [calls setCall mem]. rewrite lookup_insert_eq, isLocked_mutexOf, El.
    cbn [calls setCall mem]. rewrite lookup_insert_eq. eexists. split; [done|].
    split; [done|]. unfold returned. cbn [calls setCall]. by rewrite lookup_insert_eq.
Qed.

(** * Further properties *)

(** ** The recorder *)

(** X1.  The recorder is a tee.  Whatever the handler writes, and on whatever
    writer: the wrapped writer gets exactly the writes it would have got
    without the recorder, the recorded body is all the bytes written, in
    order, and the recorded status is the last one written, or 200 if none
    was. *)
Theorem recorder_is_a_tee {W} `{http.ResponseWriter W}
    (ops : list http.WriterOp) (w : W) :
  let recorder := http.apply_ops ops (mkRecorder w http.StatusOK EmptyString) in
  ResponseWriter recorder = http.apply_ops ops w
  /\ body recorder = bodyOf ops
  /\ statusCode recorder = lastStatus http.StatusOK ops.
Proof.
  assert (forall (rec : responseRecorder W),
            let rec' := http.apply_ops ops rec in
            ResponseWriter rec' = http.apply_ops ops (ResponseWriter rec)
            /\ body rec' = body rec +:+ bodyOf ops
            /\ statusCode rec' = lastStatus (statusCode rec) ops) as Hgen.
  { unfold http.apply_ops, lastStatus.
    induction ops as [|op ops IH]; intros rec; cbn [foldl bodyOf].
    - by rewrite append_nil_r.
    - destruct (IH (http.apply_op rec op)) as (Hw & Hb & Hs).
      rewrite Hw, Hb, Hs. destruct op; cbn; try done.
      by rewrite append_assoc. }
  exact (Hgen (mkRecorder w http.StatusOK EmptyString)).
Qed.

(** ** Options *)

Lemma newConfig_snoc (opts : list Option) (opt : Option) :
  newConfig (opts ++ [opt]) = opt (newConfig opts).
Proof. unfold newConfig. by rewrite foldl_app. Qed.

(** X2.  With no option the configuration is the header [Idempotency-Key],
    24 hours and [defaultKeyFunc].  An option sets its own field and leaves
    the other two as the options before it made them, so the last option
    for a field wins and options for different fields can come in either
    order. *)
Theorem options_set_their_own_field (opts : list Option)
    (name : string) (ttl : Z) (fn : KeyFunc) :
  newConfig [] = mkConfig "Idempotency-Key" 86400000000000 defaultKeyFunc
  /\ newConfig (opts ++ [WithHeaderName name])
     = mkConfig name (TTL (newConfig opts)) (KeyFunc_ (newConfig opts))
  /\ newConfig (opts ++ [WithTTL ttl])
     = mkConfig (HeaderName (newConfig opts)) ttl (KeyFunc_ (newConfig opts))
  /\ newConfig (opts ++ [WithKeyFunc fn])
     = mkConfig (HeaderName (newConfig opts)) (TTL (newConfig opts)) fn
  /\ newConfig (opts ++ [WithTTL ttl; WithHeaderName name])
     = newConfig (opts ++ [WithHeaderName name; WithTTL ttl])
  /\ newConfig (opts ++ [WithKeyFunc fn; WithTTL ttl])
     = newConfig (opts ++ [WithTTL ttl; WithKeyFunc fn])
  /\ newConfig (opts ++ [WithKeyFunc fn; WithHeaderName name])
     = newConfig (opts ++ [WithHeaderName name; WithKeyFunc fn]).
Proof.
  rewrite !newConfig_snoc.
  repeat split; try done;
    change [?a; ?b] with ([a] ++ [b]); by rewrite !app_assoc, !newConfig_snoc.
Qed.

(** X3.  The configured header name is matched without regard to case: two
    names with the same canonical form make the same middleware. *)
Theorem header_name_is_case_insensitive {S} `{Store S} {A W} `{http.ResponseWriter W}
    (opts : list Option) (name1 name2 : string) (next : http.Handler A)
    (now : Z) (w : W) (r : http.Request) (σ : World S A) :
  textproto.CanonicalMIMEHeaderKey name1 = textproto.CanonicalMIMEHeaderKey name2 ->
  Middleware (opts ++ [WithHeaderName name1]) next now w r σ
  = Middleware (opts ++ [WithHeaderName name2]) next now w r σ.
Proof.
  intros Hn. unfold Middleware. rewrite !newConfig_snoc.
  cbn [WithHeaderName HeaderName TTL KeyFunc_].
  unfold http.Header_Get. by rewrite Hn.
Qed.

Lemma header_name_is_case_insensitive_witness :
  Middleware ([WithTTL 5] ++ [WithHeaderName "idempotency-key"]) charge 0 http.newResponse
             payment (mkWorld NewMemoryStore 0 [])
  = Middleware ([WithTTL 5] ++ [WithHeaderName "IDEMPOTENCY-KEY"]) charge 0 http.newResponse
               payment (mkWorld NewMemoryStore 0 []).
Proof.
  apply (header_name_is_case_insensitive (S := MemoryStore)). reflexivity.
Defined.

(** ** The in-memory store: entries *)

(** X4.  [Set] never fails and leaves the locks alone.  After it, [Get] of
    the same key returns the response that was set (whatever was there
    before) up to and including the instant [now + ttl], and [ErrNotFound]
    after; [Get] of any other key returns what it returned before. *)
Theorem MemoryStore_Set_then_Get (s : MemoryStore) (key key' : string)
    (response : CachedResponse) (ttl now now' : Z) :
  let s' := (MemoryStore_Set key response ttl now s).1 in
  (MemoryStore_Set key response ttl now s).2 = None
  /\ locks s' = locks s
  /\ (MemoryStore_Get key now' s').2
     = (if (now + ttl <? now')%Z then (None, Some ErrNotFound) else (Some response, None))
  /\ (key' <> key -> (MemoryStore_Get key' now' s').2 = (MemoryStore_Get key' now' s).2).
Proof.
  unfold MemoryStore_Get, MemoryStore_Set, After. cbn [fst snd data locks].
  rewrite lookup_insert_eq. cbn [expiresAt store.response].
  repeat split; [by destruct (_ <? _)%Z|].
  intros Hne. rewrite lookup_insert_ne by done.
  destruct (data s !! key') as [e|]; [|done]. by destruct (_ <? _)%Z.
Qed.

(** X5.  A sweep of [cleanup] at the tick [tick] removes exactly the entries
    whose expiry instant is before [tick] and keeps every other entry as it
    is; it never touches the mutexes, which are never evicted; and a second
    sweep at the same tick removes nothing more. *)
Theorem cleanup_removes_exactly_the_expired (tick : Z) (s : MemoryStore) :
  (forall key,
      data (cleanup tick s) !! key
      = match data s !! key with
        | Some e => if (expiresAt e <? tick)%Z then None else Some e
        | None => None
        end)
  /\ locks (cleanup tick s) = locks s
  /\ cleanup tick (cleanup tick s) = cleanup tick s.
Proof.
  assert (forall s key,
      data (cleanup tick s) !! key
      = match data s !! key with
        | Some e => if (expiresAt e <? tick)%Z then None else Some e
        | None => None
        end) as Hl.
  { intros s0 key. unfold cleanup, After. cbn [data].
    destruct (data s0 !! key) as [e|] eqn:E.
    - destruct (expiresAt e <? tick)%Z eqn:Et.
      + apply map_lookup_filter_None. right. intros e' He'.
        rewrite E in He'. injection He' as <-. cbn. by rewrite Et.
      + apply map_lookup_filter_Some. split; [done|]. cbn. by rewrite Et.
    - apply map_lookup_filter_None. by left. }
  split; [apply Hl|]. split; [done|].
  assert (data (cleanup tick (cleanup tick s)) = data (cleanup tick s)) as Hd.
  { apply map_eq. intros key. rewrite (Hl (cleanup tick s)), (Hl s).
    destruct (data s !! key) as [e|]; [|done].
    destruct (expiresAt e <? tick)%Z eqn:Et; [done|]. by rewrite Et. }
  unfold cleanup in *. cbn [data locks] in *. by rewrite Hd.
Qed.

(** ** The in-memory store: locks *)

Lemma getMutex_lockMutex_ne k k' s : k' <> k -> getMutex k (lockMutex k' s) = getMutex k s.
Proof. intros Hne. unfold lockMutex. by rewrite getMutex_setMutex, decide_False. Qed.

Lemma getMutex_unlockMutex_ne k k' s :
  k' <> k -> getMutex k (unlockMutex k' s) = getMutex k s.
Proof. intros Hne. unfold unlockMutex. by rewrite getMutex_setMutex, decide_False. Qed.

Lemma getMutex_parkGoroutine_ne k k' s :
  k' <> k -> getMutex k (parkGoroutine k' s) = getMutex k s.
Proof. intros Hne. unfold parkGoroutine. by rewrite getMutex_setMutex, decide_False. Qed.

(** X6.  With no other goroutine in between: [Lock] on a key whose mutex is
    free returns an [unlock] and leaves the mutex locked; a second [Lock] of
    that key then returns [ErrRequestInProgress]; after [unlock] the mutex
    is free and [Lock] succeeds again.  Locking and unlocking leave the
    cached entries, the goroutines blocked on the mutex and the mutexes of
    all other keys as they were. *)
Theorem MemoryStore_Lock_then_unlock (s : MemoryStore) (key : string) (now now' : Z) :
  isLocked key s = false ->
  exists s1 unlock,
    MemoryStore_Lock key now s = (s1, inl unlock)
    /\ isLocked key s1 = true
    /\ (MemoryStore_Lock key now' s1).2 = inr ErrRequestInProgress
    /\ isLocked key (unlock s1) = false
    /\ lockError (MemoryStore_Lock key now' (unlock s1)).2 = None
    /\ data (unlock s1) = data s
    /\ parkedOn key (unlock s1) = parkedOn key s
    /\ forall k, k <> key -> getMutex k (unlock s1) = getMutex k s.
Proof.
  intros Hfree. eexists _, _. split; [by apply MemoryStore_Lock_free|].
  set (s1 := lockMutex key (mutexOf key s).2).
  assert (isLocked key s1 = true) as Hl1
    by (subst s1; by rewrite isLocked_lockMutex, decide_True).
  split; [done|]. split; [by rewrite MemoryStore_Lock_busy|].
  split; [apply isLocked_unlockMutex|].
  split; [by rewrite MemoryStore_Lock_free by apply isLocked_unlockMutex|].
  split; [subst s1; by rewrite data_unlockMutex, data_lockMutex, data_mutexOf|].
  split.
  - subst s1. by rewrite parkedOn_unlockMutex, parkedOn_lockMutex, parkedOn_mutexOf.
  - intros k Hk. subst s1.
    by rewrite getMutex_unlockMutex_ne, getMutex_lockMutex_ne, getMutex_mutexOf.
Qed.

Lemma MemoryStore_Lock_then_unlock_witness :
  exists s1 unlock,
    MemoryStore_Lock "k" 0 NewMemoryStore = (s1, inl unlock)
    /\ (MemoryStore_Lock "k" 1 s1).2 = inr ErrRequestInProgress
    /\ isLocked "k" (unlock s1) = false.
Proof.
  destruct (MemoryStore_Lock_then_unlock NewMemoryStore "k" 0 1 eq_refl)
    as (s1 & unlock & H1 & _ & H2 & H3 & _).
  by exists s1, unlock.
Defined.

(** X7.  Mutual exclusion.  In every state the goroutines of [Lock] can
    reach, at most one call of a key has got the mutex and not given it
    back, be it that its goroutine has just closed the channel or that the
    caller holds the [unlock]; and while there is such a call the mutex of
    the key is locked. *)
Theorem Lock_has_one_owner (es : list Step) (g : Goroutines) (key : string)
    (c1 c2 : nat) (cs1 cs2 : CallState) :
  run es start = Some g ->
  calls g !! c1 = Some (key, cs1) -> owns cs1 = true ->
  calls g !! c2 = Some (key, cs2) -> owns cs2 = true ->
  c1 = c2 /\ isLocked key (mem g) = true.
Proof.
  intros Hr H1 O1 H2 O2.
  destruct (consistent_run es start g consistent_start Hr key) as [Hfree Huniq].
  split; [by eapply Huniq|].
  destruct (isLocked key (mem g)) eqn:El; [done|].
  by rewrite (Hfree eq_refl c1 cs1 H1) in O1.
Qed.

Lemma Lock_has_one_owner_witness :
  exists g, run [Call 1 "k"; Acquire 1; Return 1; Call 2 "k"] start = Some g
            /\ isLocked "k" (mem g) = true.
Proof.
  eexists. split; [reflexivity|].
  eapply (Lock_has_one_owner [Call 1 "k"; Acquire 1; Return 1; Call 2 "k"] _ "k"
            1 1 Holding Holding); by vm_compute.
Defined.

(** X8.  A step of [Lock] works on the mutex of one key: it leaves the
    cached entries and the mutex of every other key as they are, so what
    happens to one fingerprint, a wedged mutex included, never holds up the
    calls of another. *)
Theorem step_touches_one_mutex (e : Step) (g g' : Goroutines) :
  step e g = Some g' ->
  exists key,
    keyOf e g = Some key
    /\ data (mem g') = data (mem g)
    /\ forall k, k <> key -> getMutex k (mem g') = getMutex k (mem g).
Proof.
  intros Hs. destruct e as [c k|c|c|c|c|k]; cbn [step keyOf] in *.
  - destruct (calls g !! c); [done|]. injection Hs as <-. exists k.
    cbn [mem setCall]. split; [done|]. split; [apply data_mutexOf|].
    intros k' _. apply getMutex_mutexOf.
  - destruct (calls g !! c) as [[k []]|]; try done.
    destruct (isLocked k (mem g)); [done|]. injection Hs as <-. exists k.
    cbn [mem setCall]. split; [done|]. split; [done|].
    intros k' Hk. by apply getMutex_lockMutex_ne.
  - destruct (calls g !! c) as [[k []]|]; try done. injection Hs as <-. by exists k.
  - destruct (calls g !! c) as [[k []]|]; try done; injection Hs as <-; exists k;
      cbn [mem setCall]; (split; [done|]); (split; [done|]); try done.
    intros k' Hk. by apply getMutex_parkGoroutine_ne.
  - destruct (calls g !! c) as [[k []]|]; try done. injection Hs as <-. exists k.
    cbn [mem setCall]. split; [done|]. split; [done|].
    intros k' Hk. by apply getMutex_unlockMutex_ne.
  - unfold parkedAcquires in Hs. destruct (getMutex k (mem g)) as [[] [|n]]; try done.
    injection Hs as <-. exists k. cbn [mem]. split; [done|]. split; [done|].
    intros k' Hk. by rewrite getMutex_setMutex, decide_False.
Qed.

Lemma step_touches_one_mutex_witness :
  exists key,
    keyOf (Call 1 "k") start = Some key
    /\ forall k, k <> key ->
         getMutex k (mem (setCall 1 "k" Selecting start (mutexOf "k" (mem start)).2))
         = getMutex k (mem start).
Proof.
  destruct (step_touches_one_mutex (Call 1 "k") start _ eq_refl) as (key & Hk & _ & Hm).
  by exists key.
Defined.

(** ** The Redis store: locks *)

Lemma lockKey_inj (key key' : string) : "lock:" +:+ key = "lock:" +:+ key' -> key = key'.
Proof. apply String.app_inj. Qed.

Lemma exists_at_insert (now : Z) (k k' v : string) (expires : Z)
    (ks : gmap string (string * Z)) (up : bool) (cmds : list redis.Cmd) :
  redis.exists_at now k (redis.mkClient (<[k' := (v, expires)]> ks) up cmds)
  = if decide (k' = k) then (now <? expires)%Z
    else redis.exists_at now k (redis.mkClient ks up cmds).
Proof.
  unfold redis.exists_at. cbn [redis.keyspace]. rewrite lookup_insert. by case_decide.
Qed.

Lemma RedisStore_Lock_free (key : string) (now : Z) (s : RedisStore) :
  redis.reachable s = true ->
  redis.exists_at now ("lock:" +:+ key) s = false ->
  RedisStore_Lock key now s
  = (redis.mkClient (<["lock:" +:+ key := ("1", (now + 30000000000)%Z)]> (redis.keyspace s))
                    true
                    (redis.sent s ++ [redis.CmdSetNX ("lock:" +:+ key) "1" 30000000000]),
     inl (fun s => (redis.Del ("lock:" +:+ key) s).1)).
Proof.
  intros Hr He. unfold RedisStore_Lock, redis.SetNX.
  cbn [redis.reachable redis.keyspace redis.sent]. rewrite Hr. cbn [negb].
  change (redis.exists_at now ("lock:" +:+ key) (redis.mkClient _ _ _))
    with (redis.exists_at now ("lock:" +:+ key) s).
  by rewrite He.
Qed.

Lemma RedisStore_Lock_error (key : string) (now : Z) (s : RedisStore) :
  redis.reachable s = true ->
  lockError (RedisStore_Lock key now s).2
  = if redis.exists_at now ("lock:" +:+ key) s then Some ErrRequestInProgress else None.
Proof.
  intros Hr. destruct (redis.exists_at now ("lock:" +:+ key) s) eqn:He.
  - unfold RedisStore_Lock, redis.SetNX.
    cbn [redis.reachable redis.keyspace redis.sent]. rewrite Hr. cbn [negb].
    change (redis.exists_at now ("lock:" +:+ key) (redis.mkClient _ _ _))
      with (redis.exists_at now ("lock:" +:+ key) s).
    by rewrite He.
  - by rewrite RedisStore_Lock_free.
Qed.

(** X9.  A lock of the Redis store lasts 30 seconds: after a [Lock] that
    succeeded at the instant [t], and with no [unlock] in between, a [Lock]
    of the same key returns [ErrRequestInProgress] at every instant before
    [t] + 30 s, and succeeds at every instant from then on. *)
Theorem RedisStore_Lock_lasts_30_seconds (s : RedisStore) (key : string) (t t' : Z) :
  redis.reachable s = true ->
  redis.exists_at t ("lock:" +:+ key) s = false ->
  lockError (RedisStore_Lock key t' (RedisStore_Lock key t s).1).2
  = if (t' <? t + 30 * Second)%Z then Some ErrRequestInProgress else None.
Proof.
  intros Hr He. rewrite (RedisStore_Lock_free key t s) by done. cbn [fst].
  rewrite RedisStore_Lock_error by done.
  by rewrite exists_at_insert, decide_True.
Qed.

Lemma RedisStore_Lock_lasts_30_seconds_witness :
  lockError (RedisStore_Lock "k" 29999999999
               (RedisStore_Lock "k" 0 (redis.mkClient ∅ true [])).1).2
  = Some ErrRequestInProgress.
Proof.
  exact (RedisStore_Lock_lasts_30_seconds (redis.mkClient ∅ true []) "k" 0 29999999999
           eq_refl eq_refl).
Defined.

(** X10.  [unlock] of the Redis store deletes the lock key and nothing else,
    whatever the time left on it: after [Lock] and [unlock] the keyspace is
    the one before without the lock key, and [Lock] of the same key succeeds
    again at once. *)
Theorem RedisStore_unlock_frees_the_key (s : RedisStore) (key : string) (t t' : Z) :
  redis.reachable s = true ->
  redis.exists_at t ("lock:" +:+ key) s = false ->
  exists s1 unlock,
    RedisStore_Lock key t s = (s1, inl unlock)
    /\ redis.keyspace (unlock s1) = delete ("lock:" +:+ key) (redis.keyspace s)
    /\ redis.sent (unlock s1)
       = redis.sent s ++ [redis.CmdSetNX ("lock:" +:+ key) "1" 30000000000;
                          redis.CmdDel ("lock:" +:+ key)]
    /\ lockError (RedisStore_Lock key t' (unlock s1)).2 = None.
Proof.
  intros Hr He. eexists _, _. split; [by apply RedisStore_Lock_free|].
  unfold redis.Del. cbn [redis.reachable redis.keyspace redis.sent negb fst].
  split; [apply delete_insert_eq|]. split; [by rewrite <- app_assoc|].
  rewrite RedisStore_Lock_error by done.
  unfold redis.exists_at. cbn [redis.keyspace]. by rewrite lookup_delete_eq.
Qed.

Lemma RedisStore_unlock_frees_the_key_witness :
  exists s1 unlock,
    RedisStore_Lock "k" 0 (redis.mkClient ∅ true []) = (s1, inl unlock)
    /\ lockError (RedisStore_Lock "k" 1 (unlock s1)).2 = None.
Proof.
  destruct (RedisStore_unlock_frees_the_key (redis.mkClient ∅ true []) "k" 0 1)
    as (s1 & unlock & H1 & _ & _ & H2); [by vm_compute..|].
  by exists s1, unlock.
Defined.

(** X11.  [unlock] does not check who holds the lock.  When the first
    holder's lock has run out after 30 seconds and a second caller has taken
    the lock, the first holder's [unlock] deletes the second caller's lock:
    a third [Lock] succeeds at once, while the second caller still counts
    on holding it. *)
Theorem RedisStore_unlock_is_not_owner_checked
    (s : RedisStore) (key : string) (t t2 t3 : Z) :
  redis.reachable s = true ->
  redis.exists_at t ("lock:" +:+ key) s = false ->
  (t + 30 * Second <= t2)%Z ->
  exists s1 unlock1 s2 unlock2,
    RedisStore_Lock key t s = (s1, inl unlock1)
    /\ RedisStore_Lock key t2 s1 = (s2, inl unlock2)
    /\ redis.exists_at t3 ("lock:" +:+ key) s2 = (t3 <? t2 + 30 * Second)%Z
    /\ lockError (RedisStore_Lock key t3 (unlock1 s2)).2 = None.
Proof.
  intros Hr He Ht. eexists _, _, _, _.
  split; [by apply RedisStore_Lock_free|].
  split.
  { apply RedisStore_Lock_free; [done|].
    rewrite exists_at_insert, decide_True by done.
    apply Z.ltb_ge. by change (30 * Second)%Z with 30000000000%Z in Ht. }
  split; [by rewrite exists_at_insert, decide_True|].
  rewrite RedisStore_Lock_error by done.
  unfold redis.Del, redis.exists_at.
  cbn [redis.reachable redis.keyspace redis.sent negb fst].
  by rewrite lookup_delete_eq.
Qed.

Lemma RedisStore_unlock_is_not_owner_checked_witness :
  exists s1 unlock1 s2 unlock2,
    RedisStore_Lock "k" 0 (redis.mkClient ∅ true []) = (s1, inl unlock1)
    /\ RedisStore_Lock "k" 30000000000 s1 = (s2, inl unlock2)
    /\ redis.exists_at 30000000001 "lock:k" s2 = true
    /\ lockError (RedisStore_Lock "k" 30000000001 (unlock1 s2)).2 = None.
Proof.
  destruct (RedisStore_unlock_is_not_owner_checked (redis.mkClient ∅ true []) "k"
              0 30000000000 30000000001)
    as (s1 & u1 & s2 & u2 & H1 & H2 & H3 & H4); [by vm_compute..|].
  by exists s1, u1, s2, u2.
Defined.

(** X12.  The locks of different keys do not meet: a [Lock] of one key,
    whether it succeeds or not, does not change how a [Lock] of another key
    ends, and the [unlock] of one key leaves the lock of the other in
    place. *)
Theorem RedisStore_locks_are_per_key (s : RedisStore) (key key' : string) (t t' : Z) :
  key' <> key ->
  redis.reachable s = true ->
  lockError (RedisStore_Lock key' t' (RedisStore_Lock key t s).1).2
  = lockError (RedisStore_Lock key' t' s).2
  /\ forall unlock s',
       (RedisStore_Lock key t s).2 = inl unlock ->
       redis.exists_at t' ("lock:" +:+ key') (unlock s')
       = redis.exists_at t' ("lock:" +:+ key') s'.
Proof.
  intros Hne Hr.
  assert ("lock:" +:+ key <> "lock:" +:+ key') as Hk
    by (intros Heq; by apply lockKey_inj in Heq).
  destruct (redis.exists_at t ("lock:" +:+ key) s) eqn:He.
  - assert (RedisStore_Lock key t s
            = (redis.mkClient (redis.keyspace s) true
                 (redis.sent s ++ [redis.CmdSetNX ("lock:" +:+ key) "1" 30000000000]),
               inr ErrRequestInProgress)) as ->.
    { unfold RedisStore_Lock, redis.SetNX.
      cbn [redis.reachable redis.keyspace redis.sent]. rewrite Hr. cbn [negb].
      change (redis.exists_at t ("lock:" +:+ key) (redis.mkClient _ _ _))
        with (redis.exists_at t ("lock:" +:+ key) s).
      by rewrite He. }
    cbn [fst snd]. split; [|done]. by rewrite !RedisStore_Lock_error.
  - rewrite (RedisStore_Lock_free key t s) by done. cbn [fst snd]. split.
    + rewrite !RedisStore_Lock_error by done.
      by rewrite exists_at_insert, decide_False.
    + intros unlock s' [= <-]. unfold redis.Del, redis.exists_at.
      cbn [redis.reachable redis.keyspace redis.sent].
      destruct (redis.reachable s'); cbn [negb fst redis.keyspace]; [|done].
      by rewrite lookup_delete_ne.
Qed.

Lemma RedisStore_locks_are_per_key_witness :
  lockError (RedisStore_Lock "b" 1 (RedisStore_Lock "a" 0 (redis.mkClient ∅ true [])).1).2
  = lockError (RedisStore_Lock "b" 1 (redis.mkClient ∅ true [])).2.
Proof.
  destruct (RedisStore_locks_are_per_key (redis.mkClient ∅ true []) "a" "b" 0 1)
    as [H1 _]; [discriminate|reflexivity|exact H1].
Defined.

(** ** The fingerprint: its shape *)

Lemma length_be_bytes (n : nat) (x : N) : length (sha256.be_bytes n x) = n.
Proof. induction n as [|n IH]; [done|]. cbn. by rewrite IH. Qed.

Lemma length_round (st : list N) (kw : N * N) :
  length (sha256.round st kw) = length st.
Proof.
  unfold sha256.round.
  by destruct st as [|a [|b [|c [|d [|e [|f [|g [|h [|i st]]]]]]]]].
Qed.

Lemma length_rounds (kws : list (N * N)) :
  forall st, length (foldl sha256.round st kws) = length st.
Proof.
  induction kws as [|kw kws IH]; intros st; [done|].
  cbn [foldl]. by rewrite IH, length_round.
Qed.

Lemma length_blocks (ps : list (list N)) :
  forall st, length (foldl sha256.block st ps) = length st.
Proof.
  induction ps as [|p ps IH]; intros st; [done|].
  cbn [foldl]. rewrite IH. unfold sha256.block.
  rewrite length_zip_with, length_rounds. lia.
Qed.

Lemma length_digest (msg : list N) : length (sha256.digest msg) = 32.
Proof.
  unfold sha256.digest. rewrite length_concat.
  assert (forall l, length l = 8 ->
            list_sum (map length (map (sha256.be_bytes 4) l)) = 32) as Hsum.
  { intros l Hl. do 9 (destruct l as [|? l]; try done). }
  apply Hsum. by rewrite length_blocks.
Qed.

Lemma length_string_of_list_ascii (l : list ascii) :
  String.length (String.string_of_list_ascii l) = length l.
Proof. induction l as [|c l IH]; [done|]. cbn. by rewrite IH. Qed.

Lemma length_hex (b : string) : String.length (hex b) = 2 * String.length b.
Proof. induction b as [|c b IH]; [done|]. cbn [hex String.length]. rewrite IH. lia. Qed.

Lemma length_hex_Sum (h : string) : String.length (hex (sha256.Sum h)) = 64.
Proof.
  rewrite length_hex. unfold sha256.Sum.
  by rewrite length_string_of_list_ascii, length_map, length_digest.
Qed.

Lemma length_append (s t : string) :
  String.length (s +:+ t) = String.length s + String.length t.
Proof.
  induction s as [|c s IH]; [done|].
  change (Datatypes.S (String.length (s +:+ t))
          = Datatypes.S (String.length s) + String.length t).
  by rewrite IH.
Qed.

(** Two concatenations with tails of one length are equal part by part. *)
Lemma append_inj_tail (s1 : string) : forall s2 t1 t2,
  s1 +:+ t1 = s2 +:+ t2 -> String.length t1 = String.length t2 -> s1 = s2 /\ t1 = t2.
Proof.
  induction s1 as [|c s1 IH]; intros [|c' s2] t1 t2 Heq Hlen.
  - done.
  - change (t1 = String c' (s2 +:+ t2)) in Heq. subst t1.
    cbn [String.length] in Hlen. rewrite length_append in Hlen. lia.
  - change (String c (s1 +:+ t1) = t2) in Heq. subst t2.
    cbn [String.length] in Hlen. rewrite length_append in Hlen. lia.
  - change (String c (s1 +:+ t1) = String c' (s2 +:+ t2)) in Heq.
    injection Heq as -> Heq. by destruct (IH s2 t1 t2 Heq Hlen) as [-> ->].
Qed.

(** X13.  The key that [defaultKeyFunc] makes is the idempotency key, a
    colon and 64 hexadecimal digits, and it tells idempotency keys apart:
    two requests whose idempotency keys differ never get the same key, so
    they never share a cache entry or a lock, whatever their method, path
    and body and whether or not a key contains a colon. *)
Theorem fingerprint_tells_keys_apart (r1 r2 : http.Request) (key1 key2 : string) :
  String.length (fingerprintOf r1 key1) = String.length key1 + 65
  /\ (key1 <> key2 -> fingerprintOf r1 key1 <> fingerprintOf r2 key2).
Proof.
  unfold fingerprintOf. split.
  - rewrite !length_append, length_hex_Sum. by cbn.
  - intros Hne Heq. apply append_inj_tail in Heq as [? _]; [done|].
    by rewrite !length_append, !length_hex_Sum.
Qed.

(** ** The first execution *)



(** ** The middleware on the in-memory store *)

Lemma isLocked_MemoryStore_Set k key response ttl now s :
  isLocked k (MemoryStore_Set key response ttl now s).1 = isLocked k s.
Proof. done. Qed.

Lemma parkedOn_MemoryStore_Set k key response ttl now s :
  parkedOn k (MemoryStore_Set key response ttl now s).1 = parkedOn k s.
Proof. done. Qed.

Lemma MemoryStore_Get_fst key now s : (MemoryStore_Get key now s).1 = s.
Proof.
  unfold MemoryStore_Get. destruct (data s !! key) as [e|]; [|done].
  by destruct (After now (expiresAt e)).
Qed.

Lemma MemoryStore_Get_cases key now s :
  (MemoryStore_Get key now s).2 = (None, Some ErrNotFound)
  \/ exists cached, (MemoryStore_Get key now s).2 = (Some cached, None).
Proof.
  unfold MemoryStore_Get. destruct (data s !! key) as [e|]; [|by left].
  destruct (After now (expiresAt e)); [by left|right; by eexists].
Qed.

(** The request that finds its lock free, on its two paths. *)
Lemma Middleware_MemoryStore_miss {A W} `{http.ResponseWriter W}
    (opts : list Option) (next : http.Handler A) (now : Z) (w : W)
    (r r' : http.Request) (σ : World MemoryStore A) (key fullKey : string) :
  isIdempotentMethod (http.Method r) = true ->
  http.Header_Get (HeaderName (newConfig opts)) (http.Header_ r) = key ->
  key <> EmptyString ->
  KeyFunc_ (newConfig opts) r key = (r', inl fullKey) ->
  isLocked fullKey (store σ) = false ->
  (MemoryStore_Get fullKey now (store σ)).2 = (None, Some ErrNotFound) ->
  Middleware opts next now w r σ
  = (http.apply_ops (next r' (app σ)).1 w,
     mkWorld
       (unlockMutex fullKey
          (MemoryStore_Set fullKey (captured next r' (app σ) w now) (TTL (newConfig opts))
             now (lockMutex fullKey (mutexOf fullKey (store σ)).2)).1)
       (next r' (app σ)).2
       (log σ ++ [EvKeyFunc key; EvLock fullKey; EvGet fullKey; EvServe r';
                  EvSet fullKey (captured next r' (app σ) w now) (TTL (newConfig opts));
                  EvUnlock fullKey])).
Proof.
  intros Hm Hkey Hne HK Hfree Hmiss.
  apply (Middleware_miss opts next now w r r' σ key fullKey
           (lockMutex fullKey (mutexOf fullKey (store σ)).2)
           (lockMutex fullKey (mutexOf fullKey (store σ)).2) _ (unlockMutex fullKey)
           (None, Some ErrNotFound) None); try done.
  - by apply MemoryStore_Lock_free.
  - cbn [Store_Get MemoryStore_Store].
    rewrite (MemoryStore_Get_data fullKey now (store σ)); [by rewrite Hmiss|].
    by rewrite data_lockMutex, data_mutexOf.
Qed.

Lemma Middleware_MemoryStore_hit {A W} `{http.ResponseWriter W}
    (opts : list Option) (next : http.Handler A) (now : Z) (w : W)
    (r r' : http.Request) (σ : World MemoryStore A) (key fullKey : string)
    (cached : CachedResponse) :
  isIdempotentMethod (http.Method r) = true ->
  http.Header_Get (HeaderName (newConfig opts)) (http.Header_ r) = key ->
  key <> EmptyString ->
  KeyFunc_ (newConfig opts) r key = (r', inl fullKey) ->
  isLocked fullKey (store σ) = false ->
  (MemoryStore_Get fullKey now (store σ)).2 = (Some cached, None) ->
  Middleware opts next now w r σ
  = (writeCachedResponse w cached,
     mkWorld (unlockMutex fullKey (lockMutex fullKey (mutexOf fullKey (store σ)).2))
             (app σ)
             (log σ ++ [EvKeyFunc key; EvLock fullKey; EvGet fullKey; EvUnlock fullKey])).
Proof.
  intros Hm Hkey Hne HK Hfree Hhit.
  apply (Middleware_hit opts next now w r r' σ key fullKey
           (lockMutex fullKey (mutexOf fullKey (store σ)).2)
           (lockMutex fullKey (mutexOf fullKey (store σ)).2) (unlockMutex fullKey) cached);
    try done.
  - by apply MemoryStore_Lock_free.
  - cbn [Store_Get MemoryStore_Store].
    rewrite (MemoryStore_Get_data fullKey now (store σ)); [by rewrite Hhit|].
    by rewrite data_lockMutex, data_mutexOf.
Qed.

(** X15.  A first execution on the in-memory store leaves the captured
    response under the fingerprint, to expire the TTL after the request,
    replacing whatever expired entry was there and touching no other entry;
    from then until that instant [Get] of the fingerprint returns it. *)
Theorem miss_stores_the_captured_response {A W} `{http.ResponseWriter W}
    (opts : list Option) (next : http.Handler A) (now : Z) (w : W)
    (r r' : http.Request) (σ : World MemoryStore A) (key fullKey : string) :
  isIdempotentMethod (http.Method r) = true ->
  http.Header_Get (HeaderName (newConfig opts)) (http.Header_ r) = key ->
  key <> EmptyString ->
  KeyFunc_ (newConfig opts) r key = (r', inl fullKey) ->
  isLocked fullKey (store σ) = false ->
  (MemoryStore_Get fullKey now (store σ)).2 = (None, Some ErrNotFound) ->
  let out := Middleware opts next now w r σ in
  let response := captured next r' (app σ) w now in
  data (store out.2)
  = <[fullKey := mkEntry response (now + TTL (newConfig opts))]> (data (store σ))
  /\ forall t, (t <= now + TTL (newConfig opts))%Z ->
       (MemoryStore_Get fullKey t (store out.2)).2 = (Some response, None).
Proof.
  intros Hm Hkey Hne HK Hfree Hmiss out response. subst out.
  rewrite (Middleware_MemoryStore_miss opts next now w r r' σ key fullKey) by done.
  cbn [snd store]. rewrite data_unlockMutex.
  assert (forall s', data (MemoryStore_Set fullKey response (TTL (newConfig opts)) now s').1
                     = <[fullKey := mkEntry response (now + TTL (newConfig opts))]> (data s'))
    as Hset by done.
  fold response. split.
  - by rewrite Hset, data_lockMutex, data_mutexOf.
  - intros t Ht.
    rewrite (MemoryStore_Get_data fullKey t
               (MemoryStore_Set fullKey response (TTL (newConfig opts)) now
                  (lockMutex fullKey (mutexOf fullKey (store σ)).2)).1) by done.
    cbn [snd]. unfold MemoryStore_Get. rewrite Hset, lookup_insert_eq.
    cbn [expiresAt store.response]. unfold After.
    by destruct (Z.ltb_spec (now + TTL (newConfig opts)) t); [lia|].
Qed.

Lemma miss_stores_the_captured_response_witness :
  let out := Middleware [] charge 7 http.newResponse payment (mkWorld NewMemoryStore 0 []) in
  (MemoryStore_Get (fingerprintOf payment "pay-1") (7 + DefaultTTL) (store out.2)).2
  = (Some (captured charge payment 0 http.newResponse 7), None).
Proof.
  intros out. subst out.
  destruct (miss_stores_the_captured_response [] charge 7 http.newResponse payment payment
              (mkWorld NewMemoryStore 0 []) "pay-1" (fingerprintOf payment "pay-1")
              eq_refl eq_refl ltac:(discriminate) eq_refl eq_refl eq_refl) as [_ Hget].
  apply Hget. reflexivity.
Defined.

(** X16.  A replay changes nothing in the cache: the entry stays as it is,
    with the expiry instant it had, so replays do not extend its life; and
    the handler's state is untouched. *)
Theorem replay_leaves_the_entry_as_it_is {A W} `{http.ResponseWriter W}
    (opts : list Option) (next : http.Handler A) (now : Z) (w : W)
    (r r' : http.Request) (σ : World MemoryStore A) (key fullKey : string)
    (cached : CachedResponse) :
  isIdempotentMethod (http.Method r) = true ->
  http.Header_Get (HeaderName (newConfig opts)) (http.Header_ r) = key ->
  key <> EmptyString ->
  KeyFunc_ (newConfig opts) r key = (r', inl fullKey) ->
  isLocked fullKey (store σ) = false ->
  (MemoryStore_Get fullKey now (store σ)).2 = (Some cached, None) ->
  let out := Middleware opts next now w r σ in
  data (store out.2) = data (store σ)
  /\ app out.2 = app σ
  /\ forall t, (MemoryStore_Get fullKey t (store out.2)).2
               = (MemoryStore_Get fullKey t (store σ)).2.
Proof.
  intros Hm Hkey Hne HK Hfree Hhit out. subst out.
  rewrite (Middleware_MemoryStore_hit opts next now w r r' σ key fullKey cached) by done.
  cbn [snd store app].
  assert (data (unlockMutex fullKey (lockMutex fullKey (mutexOf fullKey (store σ)).2))
          = data (store σ)) as Hd
    by (by rewrite data_unlockMutex, data_lockMutex, data_mutexOf).
  split; [done|]. split; [done|].
  intros t. by rewrite (MemoryStore_Get_data fullKey t (store σ)).
Qed.

Lemma replay_leaves_the_entry_as_it_is_witness :
  let out := Middleware [] charge 50 http.newResponse payment (mkWorld stocked 0 []) in
  data (store out.2) = data stocked /\ app out.2 = 0.
Proof.
  intros out. subst out.
  destruct (replay_leaves_the_entry_as_it_is [] charge 50 http.newResponse payment payment
              (mkWorld stocked 0 []) "pay-1" (fingerprintOf payment "pay-1") paid)
    as (Hd & Ha & _); [reflexivity|reflexivity|discriminate|by vm_compute..|].
  by split.
Defined.

Lemma isLocked_lock_unlock k key s :
  isLocked k (unlockMutex key (lockMutex key (mutexOf key s).2)) =
  if decide (key = k) then false else isLocked k s.
Proof.
  rewrite isLocked_unlockMutex'. case_decide; [done|].
  by rewrite isLocked_lockMutex, decide_False, isLocked_mutexOf.
Qed.

Lemma parkedOn_lock_unlock k key s :
  parkedOn k (unlockMutex key (lockMutex key (mutexOf key s).2)) = parkedOn k s.
Proof. by rewrite parkedOn_unlockMutex, parkedOn_lockMutex, parkedOn_mutexOf. Qed.

(** [Get] under the lock that the request has just taken. *)
Lemma MemoryStore_Get_locked (fullKey : string) (now : Z) (s : MemoryStore) :
  Store_Get fullKey now (lockMutex fullKey (mutexOf fullKey s).2)
  = (lockMutex fullKey (mutexOf fullKey s).2, (MemoryStore_Get fullKey now s).2).
Proof.
  cbn [Store_Get MemoryStore_Store].
  apply MemoryStore_Get_data. by rewrite data_lockMutex, data_mutexOf.
Qed.

Lemma returns_dec {A W} `{http.ResponseWriter W} `{http.WriterPanics W}
    (next : http.PanickingHandler A) (r : http.Request) (a : A) (w : W) :
  returns next r a w \/ ~ returns next r a w.
Proof.
  unfold returns.
  destruct (http.perform (next r a).1.1 w).2; [|right; by intros []].
  destruct (next r a).2; [by left|right; by intros []].
Qed.

(** X17.  Requests served one after the other never meet a busy lock.  On
    an in-memory store on which no mutex is locked and no goroutine is
    blocked, whatever the request, the options and the handler: the
    middleware does not stop at the lock (the last thing it does is never a
    [Lock]) and leaves no goroutine blocked, and when it returns, which it
    does unless the handler or a write panics, again no mutex is locked. *)
Theorem Middleware_leaves_the_locks_free {A W}
    `{http.ResponseWriter W} `{http.WriterPanics W}
    (opts : list Option) (next : http.PanickingHandler A) (now : Z) (w : W)
    (r : http.Request) (σ : World MemoryStore A) :
  idle (store σ) ->
  let out := Middleware_panicking opts next now w r σ in
  (forall fullKey, last (log out.1.2) <> Some (EvLock fullKey))
  /\ (forall key, parkedOn key (store out.1.2) = 0)
  /\ (out.2 = http.Returned -> idle (store out.1.2)).
Proof.
  intros Hidle out.
  assert (forall key, isLocked key (store σ) = false) as Hfree by (intros k; apply Hidle).
  assert (forall key, parkedOn key (store σ) = 0) as Hpark by (intros k; apply Hidle).
  destruct (isIdempotentMethod (http.Method r)) eqn:Hm.
  2: { subst out. rewrite Middleware_panicking_pass_through by (by left).
       rewrite ServeHTTP_panicking_spec. cbn [fst snd store log].
       split; [intros fk; by rewrite last_snoc|]. done. }
  destruct (decide (http.Header_Get (HeaderName (newConfig opts)) (http.Header_ r)
                    = EmptyString)) as [Hk|Hk].
  { subst out. rewrite Middleware_panicking_pass_through by (by right).
    rewrite ServeHTTP_panicking_spec. cbn [fst snd store log].
    split; [intros fk; by rewrite last_snoc|]. done. }
  destruct (KeyFunc_ (newConfig opts) r
              (http.Header_Get (HeaderName (newConfig opts)) (http.Header_ r)))
    as [r' [fullKey|err]] eqn:HK.
  2: { subst out. rewrite (Middleware_panicking_no_key opts next now w r r' σ _ err) by done.
       cbn [fst snd store log]. split; [intros fk; by rewrite last_snoc|]. done. }
  set (s1 := lockMutex fullKey (mutexOf fullKey (store σ)).2).
  assert (Store_Lock fullKey now (store σ) = (s1, inl (unlockMutex fullKey))) as HL
    by (by apply MemoryStore_Lock_free).
  pose proof (MemoryStore_Get_locked fullKey now (store σ)) as HG. fold s1 in HG.
  assert (forall k, parkedOn k s1 = 0) as Hpark1.
  { intros k. subst s1. by rewrite parkedOn_lockMutex, parkedOn_mutexOf. }
  destruct (MemoryStore_Get_cases fullKey now (store σ)) as [Hmiss|[cached Hhit]].
  - rewrite Hmiss in HG.
    destruct (returns_dec next r' (app σ) w) as [Hret|Hno].
    + subst out.
      rewrite (Middleware_panicking_miss opts next now w r r' σ _ fullKey s1 s1
                 (MemoryStore_Set fullKey (captured (withoutPanics next) r' (app σ) w now)
                    (TTL (newConfig opts)) now s1).1
                 (unlockMutex fullKey) (None, Some ErrNotFound) None) by done.
      cbn [fst snd store log].
      assert (forall k, parkedOn k (unlockMutex fullKey
                (MemoryStore_Set fullKey (captured (withoutPanics next) r' (app σ) w now)
                   (TTL (newConfig opts)) now s1).1) = 0) as Hp3.
      { intros k. by rewrite parkedOn_unlockMutex, parkedOn_MemoryStore_Set. }
      split; [|split; [done|]].
      * intros fk.
        change [?a; ?b; ?c; ?d; ?e; ?f] with ([a; b; c; d; e] ++ [f]).
        by rewrite app_assoc, last_snoc.
      * intros _ k. split; [|done].
        rewrite isLocked_unlockMutex'. case_decide; [done|].
        rewrite isLocked_MemoryStore_Set. subst s1.
        by rewrite isLocked_lockMutex, decide_False, isLocked_mutexOf.
    + subst out.
      rewrite (Middleware_panicking_miss_panic opts next now w r r' σ _ fullKey s1 s1
                 (unlockMutex fullKey) (None, Some ErrNotFound)) by done.
      cbn [fst snd store log]. split; [|done].
      intros fk.
      change [?a; ?b; ?c; ?d] with ([a; b; c] ++ [d]).
      by rewrite app_assoc, last_snoc.
  - rewrite Hhit in HG. subst out.
    rewrite (Middleware_panicking_hit opts next now w r r' σ _ fullKey s1 s1
               (unlockMutex fullKey) cached) by done.
    cbn [fst snd store log]. split; [|split].
    + intros fk.
      change [?a; ?b; ?c; ?d] with ([a; b; c] ++ [d]).
      by rewrite app_assoc, last_snoc.
    + intros k. subst s1. by rewrite parkedOn_lock_unlock.
    + intros _ k. subst s1. rewrite isLocked_lock_unlock, parkedOn_lock_unlock.
      split; [by case_decide|done].
Qed.

Lemma Middleware_leaves_the_locks_free_witness :
  let out := Middleware_panicking [] (returning charge) 0 http.newResponse payment
                                  (mkWorld NewMemoryStore 0 []) in
  out.2 = http.Returned /\ idle (store out.1.2).
Proof.
  intros out. assert (out.2 = http.Returned) as Hr by (by vm_compute).
  split; [done|].
  apply (Middleware_leaves_the_locks_free [] (returning charge) 0 http.newResponse payment
           (mkWorld NewMemoryStore 0 [])); [|exact Hr].
  intros key. by split.
Defined.

(** X18.  After the TTL the entry is gone for the middleware.  On an
    in-memory store, let a first request find the mutex of its fingerprint
    free with no goroutine blocked on it and no unexpired entry, and let
    the call of the handler return.  A request with the same key, method,
    path and body that comes later than the TTL after it is executed again:
    the handler is invoked a second time and the caller's writer gets what
    the handler writes, no replay and no marker header of the middleware. *)
Theorem expired_entry_is_executed_again {A W}
    `{http.ResponseWriter W} `{http.WriterPanics W}
    (opts : list Option) (next : http.PanickingHandler A) (r1 r2 : http.Request)
    (s : MemoryStore) (a : A) (w1 w2 : W) (t1 t2 : Z) (key : string) :
  let config := newConfig opts in
  let fullKey := fingerprintOf r1 key in
  KeyFunc_ config = defaultKeyFunc ->
  isIdempotentMethod (http.Method r1) = true ->
  http.Method r2 = http.Method r1 ->
  http.Path r2 = http.Path r1 ->
  http.Body r2 = http.Body r1 ->
  http.failure (http.Body r1) = None ->
  http.Header_Get (HeaderName config) (http.Header_ r1) = key ->
  http.Header_Get (HeaderName config) (http.Header_ r2) = key ->
  key <> EmptyString ->
  isLocked fullKey s = false ->
  parkedOn fullKey s = 0 ->
  (MemoryStore_Get fullKey t1 s).2 = (None, Some ErrNotFound) ->
  (t1 + TTL config < t2)%Z ->
  returns next r1 a w1 ->
  let out1 := Middleware_panicking opts next t1 w1 r1 (mkWorld s a []) in
  let out2 := Middleware_panicking opts next t2 w2 r2
                                   (mkWorld (store out1.1.2) (app out1.1.2) []) in
  out1.2 = http.Returned
  /\ out2.1.1 = (http.perform (next r2 (app out1.1.2)).1.1 w2).1
  /\ app out2.1.2 = (next r2 (next r1 a).1.2).1.2
  /\ invocations (log out1.1.2 ++ log out2.1.2) = 2.
Proof.
  intros config fullKey HKF Hm Hm2 Hp2 Hb2 Hf Hk1 Hk2 Hne Hfree _ Hmiss Httl Hret out1 out2.
  assert (KeyFunc_ (newConfig opts) r1 key = (r1, inl fullKey)) as HK1
    by (fold config; rewrite HKF; by apply defaultKeyFunc_ok).
  assert (KeyFunc_ (newConfig opts) r2 key = (r2, inl fullKey)) as HK2.
  { fold config. rewrite HKF, defaultKeyFunc_ok by (by rewrite Hb2).
    subst fullKey. unfold fingerprintOf. by rewrite Hm2, Hp2, Hb2. }
  set (s1 := lockMutex fullKey (mutexOf fullKey s).2).
  pose proof (MemoryStore_Get_locked fullKey t1 s) as HG1. fold s1 in HG1.
  rewrite Hmiss in HG1.
  set (cached := captured (withoutPanics next) r1 a w1 t1).
  set (s' := unlockMutex fullKey (MemoryStore_Set fullKey cached (TTL config) t1 s1).1).
  assert (out1 = (http.apply_ops (next r1 a).1.1 w1,
                  mkWorld s' (next r1 a).1.2
                    ([] ++ [EvKeyFunc key; EvLock fullKey; EvGet fullKey; EvServe r1;
                            EvSet fullKey cached (TTL config); EvUnlock fullKey]),
                  http.Returned)) as E1.
  { apply (Middleware_panicking_miss opts next t1 w1 r1 r1 (mkWorld s a []) key fullKey
             s1 s1 (MemoryStore_Set fullKey cached (TTL config) t1 s1).1
             (unlockMutex fullKey) (None, Some ErrNotFound) None); try done.
    by apply MemoryStore_Lock_free. }
  subst out2. rewrite E1. cbn [fst snd store app log].
  split; [done|].
  assert (isIdempotentMethod (http.Method r2) = true) as Hm' by (by rewrite Hm2).
  assert (isLocked fullKey s' = false) as Hfree' by apply isLocked_unlockMutex.
  assert ((MemoryStore_Get fullKey t2 s').2 = (None, Some ErrNotFound)) as Hmiss'.
  { subst s' config.
    rewrite (MemoryStore_Get_data fullKey t2
        (MemoryStore_Set fullKey cached (TTL (newConfig opts)) t1 s1).1) by done.
    cbn [snd]. unfold MemoryStore_Get, MemoryStore_Set. cbn [fst data].
    rewrite lookup_insert_eq. cbn [expiresAt]. unfold After.
    by destruct (Z.ltb_spec (t1 + TTL (newConfig opts)) t2); [|lia]. }
  set (s1' := lockMutex fullKey (mutexOf fullKey s').2).
  pose proof (MemoryStore_Get_locked fullKey t2 s') as HG2. fold s1' in HG2.
  rewrite Hmiss' in HG2.
  destruct (returns_dec next r2 (next r1 a).1.2 w2) as [Hret2|Hno2].
  - rewrite (Middleware_panicking_miss opts next t2 w2 r2 r2
               (mkWorld s' (next r1 a).1.2 []) key fullKey s1' s1'
               (MemoryStore_Set fullKey (captured (withoutPanics next) r2 (next r1 a).1.2 w2 t2)
                  (TTL config) t2 s1').1
               (unlockMutex fullKey) (None, Some ErrNotFound) None)
      by first [done | by apply MemoryStore_Lock_free].
    cbn [fst snd store app log]. destruct Hret2 as [Hw2 _].
    rewrite (perform_Returned _ w2 Hw2). split; [done|]. split; [done|].
    by rewrite invocations_app.
  - rewrite (Middleware_panicking_miss_panic opts next t2 w2 r2 r2
               (mkWorld s' (next r1 a).1.2 []) key fullKey s1' s1' (unlockMutex fullKey)
               (None, Some ErrNotFound))
      by first [done | by apply MemoryStore_Lock_free].
    cbn [fst snd store app log]. split; [done|]. split; [done|].
    by rewrite invocations_app.
Qed.

Lemma expired_entry_is_executed_again_witness :
  let out1 := Middleware_panicking [] (returning charge) 0 http.newResponse payment
                                   (mkWorld NewMemoryStore 0 []) in
  let out2 := Middleware_panicking [] (returning charge) (DefaultTTL + 1) http.newResponse
                                   payment (mkWorld (store out1.1.2) (app out1.1.2) []) in
  app out2.1.2 = 2 /\ invocations (log out1.1.2 ++ log out2.1.2) = 2.
Proof.
  destruct (expired_entry_is_executed_again [] (returning charge) payment payment
              NewMemoryStore 0 http.newResponse http.newResponse 0 (DefaultTTL + 1) "pay-1")
    as (_ & _ & Ha & Hn);
    [first [reflexivity | discriminate | by vm_compute | (split; by vm_compute)]..|].
  split; [exact Ha|exact Hn].
Defined.

(** X19.  A busy lock is a conflict.  When the mutex of the fingerprint is
    locked and stays locked for the 100 ms that [Lock] waits (no other
    goroutine runs during the call, so the holder does not release in that
    time), the in-memory store's [Lock] gives up and the middleware answers
    409 without invoking the handler and without touching the cache; it
    leaves the mutex locked, with one more goroutine blocked on it.  In the
    goroutine model this is the call whose [select] takes the timeout. *)
Theorem busy_lock_is_a_conflict {A}
    (opts : list Option) (next : http.Handler A) (now : Z) (w : http.response)
    (r r' : http.Request) (σ : World MemoryStore A) (key fullKey : string) :
  isIdempotentMethod (http.Method r) = true ->
  http.Header_Get (HeaderName (newConfig opts)) (http.Header_ r) = key ->
  key <> EmptyString ->
  KeyFunc_ (newConfig opts) r key = (r', inl fullKey) ->
  isLocked fullKey (store σ) = true ->
  http.wroteHeader w = false ->
  let out := Middleware opts next now w r σ in
  (http.received out.1).1.1 = http.StatusConflict
  /\ app out.2 = app σ
  /\ invocations (log out.2) = invocations (log σ)
  /\ data (store out.2) = data (store σ)
  /\ isLocked fullKey (store out.2) = true
  /\ parkedOn fullKey (store out.2) = Datatypes.S (parkedOn fullKey (store σ))
  /\ (forall g c,
        mem g = store σ -> calls g !! c = None ->
        exists g', run [Call c fullKey; Timeout c] g = Some g'
                   /\ mem g' = store out.2
                   /\ returned c g' = Some (inr ErrRequestInProgress)).
Proof.
  intros Hm Hkey Hne HK Hbusy Hw out. subst out. unfold Middleware.
  rewrite Hm, Hkey, (eqb_empty_false key Hne), HK. cbn [negb].
  unfold onStore, emit. cbn [store app log Store_Lock MemoryStore_Store].
  rewrite MemoryStore_Lock_busy by done. cbn [store app log].
  rewrite decide_True by done. cbn [fst snd store app log].
  split; [by apply Error_status|]. split; [done|].
  split; [rewrite !invocations_app; cbn; lia|].
  split; [apply data_mutexOf|].
  split; [by rewrite isLocked_parkGoroutine, isLocked_mutexOf|].
  split; [by rewrite parkedOn_parkGoroutine, decide_True, parkedOn_mutexOf|].
  intros g c Hg Hc. cbn [run step]. rewrite Hc. cbn [calls setCall mem].
  rewrite lookup_insert_eq. eexists. split; [done|]. cbn [mem setCall].
  split; [by rewrite Hg|]. unfold returned. cbn [calls setCall].
  by rewrite lookup_insert_eq.
Qed.

Lemma busy_lock_is_a_conflict_witness :
  let s := mkMemoryStore ∅ {["pay-1" := mkMutex true 0]} in
  let out := Middleware [WithKeyFunc byKey] charge 0 http.newResponse payment
                        (mkWorld s 0 []) in
  (http.received out.1).1.1 = 409%Z
  /\ app out.2 = 0
  /\ parkedOn "pay-1" (store out.2) = 1.
Proof.
  intros s.
  destruct (busy_lock_is_a_conflict [WithKeyFunc byKey] charge 0 http.newResponse payment
              payment (mkWorld s 0 []) "pay-1" "pay-1")
    as (Hs & Ha & _ & _ & _ & Hp & _); [by vm_compute..|].
  split; [exact Hs|]. split; [exact Ha|exact Hp].
Defined.

(** X21.  A panic of the handler leaves the lock held.  On the in-memory
    store, let a request find the mutex of its fingerprint free and no
    unexpired entry, and let the call of the handler panic, in its own code
    or in a write.  Then the middleware panics with it: the caller's writer
    has got the writes made until then, nothing is stored, [unlock] is not
    called and the mutex stays locked.  Nobody holds the [unlock] any more:
    every later request with this fingerprint is answered 409, without the
    handler being invoked, and leaves the mutex locked. *)
Theorem handler_panic_leaves_the_lock_held {A W}
    `{http.ResponseWriter W} `{http.WriterPanics W}
    (opts : list Option) (next : http.PanickingHandler A) (now : Z) (w : W)
    (r r' : http.Request) (σ : World MemoryStore A) (key fullKey : string) :
  isIdempotentMethod (http.Method r) = true ->
  http.Header_Get (HeaderName (newConfig opts)) (http.Header_ r) = key ->
  key <> EmptyString ->
  KeyFunc_ (newConfig opts) r key = (r', inl fullKey) ->
  isLocked fullKey (store σ) = false ->
  parkedOn fullKey (store σ) = 0 ->
  (MemoryStore_Get fullKey now (store σ)).2 = (None, Some ErrNotFound) ->
  ~ returns next r' (app σ) w ->
  let out := Middleware_panicking opts next now w r σ in
  out.2 = http.Panicked
  /\ out.1.1 = (http.perform (next r' (app σ)).1.1 w).1
  /\ invocations (log out.1.2) = invocations (log σ) + 1
  /\ releases (log out.1.2) = releases (log σ)
  /\ data (store out.1.2) = data (store σ)
  /\ isLocked fullKey (store out.1.2) = true
  /\ forall (now2 : Z) (w2 : http.response) (r2 r2' : http.Request) (key2 : string)
            (a2 : A) (l2 : list Event),
       isIdempotentMethod (http.Method r2) = true ->
       http.Header_Get (HeaderName (newConfig opts)) (http.Header_ r2) = key2 ->
       key2 <> EmptyString ->
       KeyFunc_ (newConfig opts) r2 key2 = (r2', inl fullKey) ->
       http.wroteHeader w2 = false ->
       let out2 := Middleware_panicking opts next now2 w2 r2
                                        (mkWorld (store out.1.2) a2 l2) in
       (http.received out2.1.1).1.1 = http.StatusConflict
       /\ out2.2 = http.Returned
       /\ app out2.1.2 = a2
       /\ invocations (log out2.1.2) = invocations l2
       /\ isLocked fullKey (store out2.1.2) = true.
Proof.
  intros Hm Hkey Hne HK Hfree _ Hmiss Hno out.
  set (s1 := lockMutex fullKey (mutexOf fullKey (store σ)).2).
  pose proof (MemoryStore_Get_locked fullKey now (store σ)) as HG. fold s1 in HG.
  rewrite Hmiss in HG. subst out.
  rewrite (Middleware_panicking_miss_panic opts next now w r r' σ key fullKey s1 s1
             (unlockMutex fullKey) (None, Some ErrNotFound))
    by first [done | by apply MemoryStore_Lock_free].
  cbn [fst snd store app log].
  assert (isLocked fullKey s1 = true) as Hl1
    by (subst s1; by rewrite isLocked_lockMutex, decide_True).
  split; [done|]. split; [done|].
  split; [rewrite invocations_app; cbn; lia|].
  split; [rewrite releases_app; cbn; lia|].
  split; [subst s1; by rewrite data_lockMutex, data_mutexOf|].
  split; [done|].
  intros now2 w2 r2 r2' key2 a2 l2 Hm2 Hkey2 Hne2 HK2 Hw2.
  rewrite (Middleware_panicking_no_lock opts next now2 w2 r2 r2' (mkWorld s1 a2 l2)
             key2 fullKey (parkGoroutine fullKey (mutexOf fullKey s1).2)
             ErrRequestInProgress)
    by first [done | by apply MemoryStore_Lock_busy].
  rewrite !decide_True by done. cbn [fst snd store app log].
  split; [by apply Error_status|]. split; [done|]. split; [done|].
  split; [rewrite invocations_app; cbn; lia|].
  by rewrite isLocked_parkGoroutine, isLocked_mutexOf.
Qed.

Lemma handler_panic_leaves_the_lock_held_witness :
  let out := Middleware_panicking [WithKeyFunc byKey] crash 0 http.newResponse payment
                                  (mkWorld NewMemoryStore 0 []) in
  out.2 = http.Panicked
  /\ releases (log out.1.2) = 0
  /\ isLocked "pay-1" (store out.1.2) = true.
Proof.
  destruct (handler_panic_leaves_the_lock_held [WithKeyFunc byKey] crash 0 http.newResponse
              payment payment (mkWorld NewMemoryStore 0 []) "pay-1" "pay-1")
    as (Ho & _ & _ & Hr & _ & Hl & _);
    [first [by vm_compute | (intros [_ Hfin]; by vm_compute in Hfin)]..|].
  split; [exact Ho|]. split; [exact Hr|exact Hl].
Defined.

(** ** Replaying in any order *)

(** X20. [writeCachedResponse] ranges over a Go map, whose iteration order
    is not fixed.  For a cached response whose header names are canonical,
    any two orders in which [range] can yield the headers leave the writer
    in the same state: the replay does not depend on the iteration order. *)
Theorem replay_ignores_range_order (l1 l2 : list (string * list string))
    (w : http.response) (cached : CachedResponse) :
  canonicalHeader (Headers cached) ->
  l1 ≡ₚ map_to_list (Headers cached) ->
  l2 ≡ₚ map_to_list (Headers cached) ->
  writeCachedResponse_ranged l1 w cached = writeCachedResponse_ranged l2 w cached.
Proof.
  intros Hc H1 H2.
  rewrite (writeCachedResponse_order l1) by done.
  by rewrite (writeCachedResponse_order l2).
Qed.

Lemma replay_ignores_range_order_witness :
  let cached := mkCachedResponse 201
    (<["Content-Type" := ["text/plain"]]> {["Location" := ["/api/payment/1"]]})
    "charged amount=100" 0 in
  let w := http.mkResponse {["Server" := ["go"]]} false 0 ∅ EmptyString in
  writeCachedResponse_ranged
    [("Content-Type", ["text/plain"]); ("Location", ["/api/payment/1"])] w cached
  = writeCachedResponse_ranged
    [("Location", ["/api/payment/1"]); ("Content-Type", ["text/plain"])] w cached.
Proof.
  intros cached w. apply replay_ignores_range_order.
  - intros k vs Hk. subst cached. cbn [Headers] in Hk.
    apply lookup_insert_Some in Hk as [[<- <-]|[_ Hk]]; [by split|].
    apply lookup_singleton_Some in Hk as [<- <-]. by split.
  - subst cached. cbn [Headers]. rewrite map_to_list_insert by done.
    by rewrite map_to_list_singleton.
  - subst cached. cbn [Headers]. rewrite map_to_list_insert by done.
    rewrite map_to_list_singleton. apply Permutation_swap.
Defined.

